(** * Baby-name suggestion engine: scoring, filtering and ranking

    A shallow embedding of [src/main.py] ([BASIC_NAMES], [score_name],
    [generate_suggestions], [api_generate], [api_history] with its inner
    [coerce], [test_database]) and of the models of [src/schemas.py]
    ([Preference], [Suggestion], [Generation]).

    - Python [float] is IEEE 754 binary64: scores are Rocq primitive floats,
      whose operations are specified by [FloatAxioms] over [SpecFloat]; the
      literals are the doubles Python reads from the same decimals.
    - Python [str] is modelled by [string]: a sequence of code points below
      256, on which [str.lower] acts character by character.
    - A Python exception is the [Raise] outcome of the [result] monad.
    - [list.sort(key=..., reverse=True)] is the stable descending sort
      [sort_desc]; [round(x, 3)] is [round3].
    - The [database] module is not among the sources: [create_document] is
      a parameter of [api_generate], [get_documents] one of [api_history],
      the handle [db] and the environment are parameters of
      [test_database]. *)

From Stdlib Require Import ZArith List String Ascii Bool Lia Floats.
From Stdlib Require Import Permutation Sorted.
Import ListNotations.

Set Warnings "-inexact-float".

(* ================================================================== *)
(** ** Exceptions *)

Inductive exn : Type :=
| IndexError
| OtherException (msg : string).

Inductive result (A : Type) : Type :=
| Ok (a : A)
| Raise (e : exn).

Arguments Ok {A} a.
Arguments Raise {A} e.

Definition bind {A B : Type} (r : result A) (k : A -> result B) : result B :=
  match r with
  | Ok a => k a
  | Raise e => Raise e
  end.

Notation "x <- r ;; k" := (bind r (fun x => k))
  (at level 61, r at next level, right associativity).

(* ================================================================== *)
(** ** Python strings and lists *)

Module Py.

Open Scope string_scope.

(** [str.lower] on one code point below 256: the ASCII capitals and the
    Latin-1 capitals U+00C0..U+00DE (U+00D7, the multiplication sign,
    excepted) move up by 32. *)
Definition lower_char (c : ascii) : ascii :=
  let n := N_of_ascii c in
  if ((65 <=? n) && (n <=? 90) || (192 <=? n) && (n <=? 222) && negb (n =? 215))%N
  then ascii_of_N (n + 32) else c.

Fixpoint lower (s : string) : string :=
  match s with
  | EmptyString => EmptyString
  | String c s' => String (lower_char c) (lower s')
  end.

(** [bool(s)] *)
Definition nonempty (s : string) : bool :=
  match s with EmptyString => false | String _ _ => true end.

(** [len(s)], a Python int *)
Definition len (s : string) : Z := Z.of_nat (String.length s).

(** [s.startswith(p)] *)
Fixpoint startswith (s p : string) : bool :=
  match p, s with
  | EmptyString, _ => true
  | String _ _, EmptyString => false
  | String b p', String a s' => Ascii.eqb a b && startswith s' p'
  end.

(** [sub in s] *)
Fixpoint contains (s sub : string) : bool :=
  startswith s sub ||
  match s with
  | EmptyString => false
  | String _ s' => contains s' sub
  end.

(** [s[-k:]] for [k > 0]: the last [k] characters, all of [s] when it is shorter. *)
Definition last_chars (k : nat) (s : string) : string :=
  substring (String.length s - k) k s.

(** [s[:k]] *)
Definition first_chars (k : nat) (s : string) : string :=
  substring 0 k s.

(** [s.endswith(p)] *)
Definition endswith (s p : string) : bool :=
  (String.length p <=? String.length s)%nat &&
  String.eqb (last_chars (String.length p) s) p.

(** [s[0]]: raises IndexError on the empty string. *)
Definition first_char (s : string) : result ascii :=
  match s with
  | EmptyString => Raise IndexError
  | String c _ => Ok c
  end.

(** [sep.join(l)] *)
Definition join (sep : string) (l : list string) : string :=
  String.concat sep l.

(** Truthiness of an [Optional[str]]: the value when it is a non-empty string. *)
Definition truthy (o : option string) : option string :=
  match o with
  | Some s => if nonempty s then Some s else None
  | None => None
  end.

(** Truthiness of an [Optional[int]]: the value when it is a non-zero int. *)
Definition truthy_int (o : option Z) : option Z :=
  match o with
  | Some n => if (n =? 0)%Z then None else Some n
  | None => None
  end.

(** [o == s] for an [Optional[str]] [o]. *)
Definition opt_eqb (o : option string) (s : string) : bool :=
  match o with
  | Some t => String.eqb t s
  | None => false
  end.

(** [l[:k]] on a list, for any int [k]: a negative [k] counts from the end. *)
Definition slice_to {A : Type} (l : list A) (k : Z) : list A :=
  if (0 <=? k)%Z then firstn (Z.to_nat k) l
  else firstn (Z.to_nat (Z.of_nat (List.length l) + k)) l.

End Py.

(* ================================================================== *)
(** ** Rounding to three decimals: [round(x, 3)]

    CPython rounds the exact binary value of [x] to the nearest multiple of
    1/1000 (ties to the even multiple) and returns the double nearest to that
    decimal (ties to the even mantissa); zeros, infinities and NaN are
    returned as they are. *)

(** [a / b] rounded to the nearest integer, ties to even ([b > 0]). *)
Definition rhe_div (a b : Z) : Z :=
  let q := (a / b)%Z in
  match (2 * (a mod b) ?= b)%Z with
  | Lt => q
  | Gt => (q + 1)%Z
  | Eq => if Z.even q then q else (q + 1)%Z
  end.

(** [1000 * 2^E <= n], for any integer [E]. *)
Definition thousand_pow_le (E n : Z) : bool :=
  if (0 <=? E)%Z then (1000 * 2 ^ E <=? n)%Z else (1000 <=? n * 2 ^ (- E))%Z.

(** The exponent [E] with [2^E <= n/1000 < 2^(E+1)], for [n > 0]. *)
Definition binade (n : Z) : Z :=
  let l := (Z.log2 n - 9)%Z in
  if thousand_pow_le l n then l else (l - 1)%Z.

(** The double nearest to [n/1000], for [0 < n < 1000 * 2^52]. *)
Definition nearest_thousandth (s : bool) (n : Z) : spec_float :=
  let E := binade n in
  let M := rhe_div (n * 2 ^ (52 - E)) 1000 in
  if (M =? 2 ^ 53)%Z then S754_finite s (Z.to_pos (2 ^ 52)) (E - 51)
  else S754_finite s (Z.to_pos M) (E - 52).

Definition round3 (x : float) : float :=
  match Prim2SF x with
  | S754_finite s m e =>
      if (-3 <=? e)%Z then x
      else
        let n := rhe_div (1000 * Zpos m) (2 ^ (- e)) in
        if (n =? 0)%Z then SF2Prim (S754_zero s)
        else SF2Prim (nearest_thousandth s n)
  | _ => x
  end.

(* ================================================================== *)
(** ** Data model ([src/schemas.py]) *)

Record Preference : Type := {
  surname : string;
  cultures : list string;
  languages : list string;
  beliefs : list string;
  family_origins : list string;
  parent_names : list string;
  sibling_names : list string;
  gender : option string;
  style : option string;
  starts_with : option string;
  max_length : option Z;
  uniqueness : option string
}.

(** One entry of [BASIC_NAMES]: a dict holding these six keys. *)
Record NameRecord : Type := {
  item_name : string;
  item_gender : string;
  item_origin : string;
  item_meaning : string;
  item_themes : list string;
  item_popularity : float
}.

Record Suggestion : Type := {
  sg_name : string;
  sg_gender : option string;
  sg_origin : option string;
  sg_meaning : option string;
  sg_themes : list string;
  sg_score : float;
  sg_rationale : option string
}.

Record Generation : Type := {
  gen_preference : Preference;
  gen_suggestions : list Suggestion;
  gen_notes : option string
}.

(** [GenerateRequest(Preference)]: the preference fields and [quantity]. *)
Record GenerateRequest : Type := {
  req_preference : Preference;
  quantity : option Z
}.

Record GenerateResponse : Type := {
  suggestions : list Suggestion
}.

(* ================================================================== *)
(** ** The seed list *)

Section Catalog.

Open Scope string_scope.
Open Scope float_scope.

Definition mk (n g o m : string) (t : list string) (p : float) : NameRecord :=
  {| item_name := n; item_gender := g; item_origin := o; item_meaning := m;
     item_themes := t; item_popularity := p |}.

Definition BASIC_NAMES : list NameRecord := [
  mk "James" "boy" "English" "supplanter" ["classic"; "biblical"] 0.2;
  mk "Elizabeth" "girl" "English" "oath of God" ["classic"; "biblical"] 0.2;
  mk "Grace" "girl" "English" "grace" ["virtue"; "classic"] 0.15;
  mk "Aoife" "girl" "Irish" "beauty, radiance" ["celtic"; "myth"] 0.02;
  mk "Finn" "boy" "Irish" "fair" ["celtic"; "modern"] 0.08;
  mk "Aarav" "boy" "Sanskrit" "peaceful" ["hindu"; "virtue"] 0.1;
  mk "Anaya" "girl" "Sanskrit" "caring, protection" ["hindu"; "virtue"] 0.09;
  mk "Zayd" "boy" "Arabic" "growth, abundance" ["muslim"; "virtue"] 0.04;
  mk "Layla" "girl" "Arabic" "night" ["muslim"; "poetic"] 0.14;
  mk "Mateo" "boy" "Spanish" "gift of God" ["biblical"; "classic"] 0.18;
  mk "Sofia" "girl" "Greek/Spanish" "wisdom" ["classic"] 0.2;
  mk "Asha" "girl" "Swahili" "life, hope" ["virtue"; "nature"] 0.05;
  mk "Kehinde" "boy" "Yoruba" "second-born of twins" ["heritage"] 0.01;
  mk "Wei" "unisex" "Chinese" "great, mighty" ["virtue"] 0.06;
  mk "Mei" "girl" "Chinese" "beautiful" ["virtue"] 0.07;
  mk "Noah" "boy" "Hebrew" "rest, comfort" ["biblical"; "classic"] 0.22;
  mk "Miriam" "girl" "Hebrew" "wished-for child" ["biblical"; "classic"] 0.03;
  mk "Atlas" "boy" "Greek" "bearer of the heavens" ["myth"; "modern"] 0.05;
  mk "Iris" "girl" "Greek" "rainbow" ["nature"; "myth"] 0.09;
  mk "Mila" "girl" "Slavic" "gracious, dear" ["modern"; "virtue"] 0.16;
  mk "Nikolai" "boy" "Slavic" "victory of the people" ["classic"] 0.04;
  mk "Ren" "unisex" "Japanese" "lotus, love" ["nature"; "modern"] 0.05;
  mk "Sora" "unisex" "Japanese" "sky" ["nature"] 0.03
].

End Catalog.

(* ================================================================== *)
(** ** Scoring ([score_name]) *)

Section Scoring.

Open Scope string_scope.
Open Scope float_scope.
Import Py.

(** The comma-joined themes, lower-cased. *)
Definition themes_text (item : NameRecord) : string :=
  lower (join "," (item_themes item)).

(** [any(x.lower() in text for x in xs)] *)
Definition any_in (xs : list string) (text : string) : bool :=
  existsb (fun x => contains text (lower x)) xs.

Definition gender_step (pref : Preference) (item : NameRecord) (score : float) : float :=
  match truthy (gender pref) with
  | Some g =>
      if String.eqb (item_gender item) g
         || String.eqb g "unisex" && String.eqb (item_gender item) "unisex"
      then score + 2
      else score - 0.5
  | None => score
  end.

Definition culture_step (pref : Preference) (item : NameRecord) (score : float) : float :=
  match cultures pref with
  | [] => score
  | _ :: _ =>
      if nonempty (item_origin item)
         && any_in (cultures pref) (lower (item_origin item))
      then score + 1.5 else score
  end.

Definition language_step (pref : Preference) (item : NameRecord) (score : float) : float :=
  match languages pref with
  | [] => score
  | _ :: _ => if any_in (languages pref) (themes_text item) then score + 0.5 else score
  end.

Definition belief_step (pref : Preference) (item : NameRecord) (score : float) : float :=
  match beliefs pref with
  | [] => score
  | _ :: _ => if any_in (beliefs pref) (themes_text item) then score + 1 else score
  end.

Definition style_step (pref : Preference) (item : NameRecord) (score : float) : float :=
  match truthy (style pref) with
  | Some st => if contains (themes_text item) (lower st) then score + 1 else score
  | None => score
  end.

Definition prefix_step (pref : Preference) (item : NameRecord) (score : float) : float :=
  match truthy (starts_with pref) with
  | Some p => if startswith (lower (item_name item)) (lower p) then score + 0.8 else score
  | None => score
  end.

Definition length_step (pref : Preference) (item : NameRecord) (score : float) : float :=
  match truthy_int (max_length pref) with
  | Some L => if (len (item_name item) <=? L)%Z then score + 0.4 else score
  | None => score
  end.

(** The surname heuristic: [n[0]] and [s[0]] raise on an empty string. *)
Definition surname_step (pref : Preference) (item : NameRecord) (score : float)
  : result float :=
  if nonempty (surname pref) then
    let n := lower (item_name item) in
    let s := lower (surname pref) in
    n0 <- first_char n ;;
    s0 <- first_char s ;;
    let score := if Ascii.eqb n0 s0 then score - 0.2 else score in
    let score :=
      if (2 <? len n)%Z && (2 <? len s)%Z
         && String.eqb (last_chars 2 n) (last_chars 2 s)
      then score - 0.2 else score in
    Ok score
  else Ok score.

(** [max(0, x)]: [x] when [x > 0], else the int [0]. *)
Definition max0 (x : float) : float := if PrimFloat.ltb 0 x then x else 0.

Definition uniqueness_term (pref : Preference) (pop : float) : float :=
  if opt_eqb (uniqueness pref) "unique" then max0 (0.8 - pop)
  else if opt_eqb (uniqueness pref) "common" then pop
  else 0.5 * (0.6 - abs (pop - 0.6)).

Definition sibling_step (item : NameRecord) (score : float) (sib : string) : float :=
  if nonempty sib then
    let sib_l := lower sib in
    let score :=
      if startswith (lower (item_name item)) (first_chars 1 sib_l)
      then score - 0.3 else score in
    let score :=
      if (2 <? len sib_l)%Z && endswith (lower (item_name item)) (last_chars 2 sib_l)
      then score - 0.3 else score in
    score
  else score.

Definition score_name (pref : Preference) (item : NameRecord) : result float :=
  let score := 0 in
  let score := gender_step pref item score in
  let score := culture_step pref item score in
  let score := language_step pref item score in
  let score := belief_step pref item score in
  let score := style_step pref item score in
  let score := prefix_step pref item score in
  let score := length_step pref item score in
  score <- surname_step pref item score ;;
  let pop := item_popularity item in
  let score := score + uniqueness_term pref pop in
  let score := fold_left (sibling_step item) (sibling_names pref) score in
  Ok score.

End Scoring.

(* ================================================================== *)
(** ** Ranking ([generate_suggestions]) *)

Section Ranking.

Open Scope string_scope.
Import Py.

(** The two [continue] tests of the loop over [BASIC_NAMES]. *)
Definition too_long (pref : Preference) (item : NameRecord) : bool :=
  match truthy_int (max_length pref) with
  | Some L => (L <? len (item_name item))%Z
  | None => false
  end.

Definition wrong_gender (pref : Preference) (item : NameRecord) : bool :=
  match truthy (gender pref) with
  | Some g => negb (String.eqb (item_gender item) g
                    || String.eqb (item_gender item) "unisex")
  | None => false
  end.

Definition excluded (pref : Preference) (item : NameRecord) : bool :=
  too_long pref item || wrong_gender pref item.

(** The loop building [ranked]: every item is scored, then kept or skipped. *)
Fixpoint rank (pref : Preference) (items : list NameRecord)
  : result (list (float * NameRecord)) :=
  match items with
  | [] => Ok []
  | item :: rest =>
      s <- score_name pref item ;;
      ranked <- rank pref rest ;;
      Ok (if excluded pref item then ranked else (s, item) :: ranked)
  end.

(** [l.sort(key=key, reverse=True)]: CPython compares keys with [<] only and
    keeps the sort stable under [reverse]; on keys that [<] orders totally
    the result is the one below, each element going behind the elements
    already placed whose key is not smaller than its own. *)
Fixpoint insert_desc {A : Type} (key : A -> float) (x : A) (l : list A) : list A :=
  match l with
  | [] => [x]
  | y :: l' =>
      if PrimFloat.ltb (key y) (key x) then x :: l
      else y :: insert_desc key x l'
  end.

Definition sort_desc {A : Type} (key : A -> float) (l : list A) : list A :=
  fold_left (fun acc x => insert_desc key x acc) l [].

Definition rationale_text : string :=
  "Ranked using your preferences for culture, themes, style, and flow with your surname".

Definition to_suggestion (p : float * NameRecord) : Suggestion :=
  let '(score, item) := p in
  {| sg_name := item_name item;
     sg_gender := Some (item_gender item);
     sg_origin := Some (item_origin item);
     sg_meaning := Some (item_meaning item);
     sg_themes := item_themes item;
     sg_score := round3 score;
     sg_rationale := Some rationale_text |}.

Definition generate_suggestions (pref : Preference) (limit : Z)
  : result (list Suggestion) :=
  ranked <- rank pref BASIC_NAMES ;;
  let ranked := sort_desc fst ranked in
  Ok (map to_suggestion (slice_to ranked limit)).

End Ranking.

(* ================================================================== *)
(** ** The endpoint ([api_generate]) *)

Section Api.

Open Scope string_scope.
Import Py.

(** The document store behind the [database] module, which is not part of
    the sources: [create_document(collection, doc)] returns an identifier
    or raises, and leaves the store in some state. *)
Variable World : Type.
Variable create_document : string -> Generation -> World -> result string * World.

(** [try: body  except Exception: pass] *)
Definition try_pass {A : Type} (body : World -> result A * World) (w : World) : World :=
  match body w with
  | (Ok _, w') => w'
  | (Raise _, w') => w'
  end.

(** [req.quantity or 12] *)
Definition quantity_or_12 (req : GenerateRequest) : Z :=
  match truthy_int (quantity req) with
  | Some q => q
  | None => 12
  end.

Definition api_generate (req : GenerateRequest) (w : World)
  : result GenerateResponse * World :=
  let pref := req_preference req in
  let qty := quantity_or_12 req in
  match generate_suggestions pref qty with
  | Raise e => (Raise e, w)
  | Ok suggs =>
      let w' :=
        try_pass
          (fun w0 =>
             let gen := {| gen_preference := pref;
                           gen_suggestions := suggs;
                           gen_notes := None |} in
             create_document "generation" gen w0) w in
      (Ok {| suggestions := suggs |}, w')
  end.

End Api.

Arguments try_pass {World A} body w.
Arguments api_generate {World} create_document req w.

(* ================================================================== *)
(** ** The specification's data model and scoring table *)

Section SpecTable.

Open Scope string_scope.
Open Scope float_scope.
Import Py.

Definition one_of (o : option string) (allowed : list string) : bool :=
  match o with
  | Some s => existsb (String.eqb s) allowed
  | None => true
  end.

(** A Preference of the specification's data model: [gender] is one of
    boy, girl, unisex; [max_length] is a positive integer; [uniqueness] is
    one of common, balanced, unique; [style] and [starts_with] are free
    text; every optional field may be unset. *)
Definition well_formed (pref : Preference) : bool :=
  one_of (gender pref) ["boy"; "girl"; "unisex"]
  && match max_length pref with Some L => (0 <? L)%Z | None => true end
  && one_of (uniqueness pref) ["common"; "balanced"; "unique"].

(** A row of the table: its contribution when its condition holds. *)
Definition row (cond : bool) (contribution : float) : list float :=
  if cond then [contribution] else [].

(** "x is a case-insensitive substring of text" *)
Definition ci_substring (x text : string) : bool :=
  contains (lower text) (lower x).

Definition ci_prefix (p s : string) : bool :=
  startswith (lower s) (lower p).

Definition ci_suffix (p s : string) : bool :=
  endswith (lower s) (lower p).

Definition first_letter (s : string) : option ascii :=
  match lower s with
  | EmptyString => None
  | String c _ => Some c
  end.

Definition same_first_letter (a b : string) : bool :=
  match first_letter a, first_letter b with
  | Some x, Some y => Ascii.eqb x y
  | _, _ => false
  end.

Definition gender_rows (pref : Preference) (item : NameRecord) : list float :=
  match gender pref with
  | Some g =>
      let matched :=
        String.eqb (item_gender item) g
        || String.eqb g "unisex" && String.eqb (item_gender item) "unisex" in
      row matched 2 ++ row (negb matched) (-0.5)
  | None => []
  end.

(** The balanced uniqueness contribution, as a function of the popularity. *)
Definition balanced_term (pop : float) : float := 0.5 * (0.6 - abs (pop - 0.6)).

Definition uniqueness_rows (pref : Preference) (pop : float) : list float :=
  if opt_eqb (uniqueness pref) "unique" then [max0 (0.8 - pop)]
  else if opt_eqb (uniqueness pref) "common" then [pop]
  else [balanced_term pop].

Definition sibling_rows (item : NameRecord) (sib : string) : list float :=
  row (nonempty sib && ci_prefix (first_chars 1 sib) (item_name item)) (-0.3)
  ++ row (nonempty sib && (2 <? len sib)%Z && ci_suffix (last_chars 2 sib) (item_name item))
       (-0.3).

(** The table, top to bottom.  [rd] reads the optional text fields [style]
    and [starts_with]: it gives the text the row tests, if any. *)
Definition table (rd : option string -> option string)
  (pref : Preference) (item : NameRecord) : list float :=
  let themes := join "," (item_themes item) in
  gender_rows pref item
  ++ row (existsb (fun c => ci_substring c (item_origin item)) (cultures pref)) 1.5
  ++ row (existsb (fun l => ci_substring l themes) (languages pref)) 0.5
  ++ row (existsb (fun b => ci_substring b themes) (beliefs pref)) 1
  ++ row (match rd (style pref) with Some st => ci_substring st themes | None => false end) 1
  ++ row (match rd (starts_with pref) with
          | Some p => ci_prefix p (item_name item) | None => false end) 0.8
  ++ row (match max_length pref with
          | Some L => (len (item_name item) <=? L)%Z | None => false end) 0.4
  ++ row (same_first_letter (item_name item) (surname pref)) (-0.2)
  ++ row ((2 <? len (item_name item))%Z && (2 <? len (surname pref))%Z
          && String.eqb (last_chars 2 (lower (item_name item)))
                        (last_chars 2 (lower (surname pref)))) (-0.2)
  ++ uniqueness_rows pref (item_popularity item)
  ++ flat_map (sibling_rows item) (sibling_names pref).

(** The additive sum of a list of contributions. *)
Definition total (rows : list float) : float := fold_left PrimFloat.add rows 0.

(** The table as the specification words it: a row on an optional text
    field tests the field whenever it is set. *)
Definition table_score_as_stated (pref : Preference) (item : NameRecord) : float :=
  total (table (fun o => o) pref item).

(** The table with [style] and [starts_with] read as the code reads them:
    an empty text counts as unset. *)
Definition table_score (pref : Preference) (item : NameRecord) : float :=
  total (table truthy pref item).

End SpecTable.

(* ================================================================== *)
(** ** Catalog invariant *)

(** What [score_name] relies on in a record: a non-empty name (it reads
    [n[0]]) and a non-empty origin. *)
Definition record_ok (item : NameRecord) : bool :=
  Py.nonempty (item_name item) && Py.nonempty (item_origin item).

(** The records that pass the two hard filters. *)
Definition eligible (pref : Preference) (items : list NameRecord) : list NameRecord :=
  filter (fun item => negb (excluded pref item)) items.

(* ================================================================== *)
(** ** Scenarios *)

Section Scenarios.

Open Scope string_scope.

(** A preference with only the required surname. *)
Definition only_surname (s : string) : Preference :=
  {| surname := s; cultures := []; languages := []; beliefs := [];
     family_origins := []; parent_names := []; sibling_names := [];
     gender := None; style := None; starts_with := None;
     max_length := None; uniqueness := None |}.

(** [{surname: "Smith", gender: "boy", cultures: ["Hebrew"], uniqueness: "unique"}] *)
Definition smith_pref : Preference :=
  {| surname := "Smith"; cultures := ["Hebrew"]; languages := []; beliefs := [];
     family_origins := []; parent_names := []; sibling_names := [];
     gender := Some "boy"; style := None; starts_with := None;
     max_length := None; uniqueness := Some "unique" |}.

(** [{surname: "Smith", style: ""}]: a style that is set, to the empty text. *)
Definition empty_style_pref : Preference :=
  {| surname := "Smith"; cultures := []; languages := []; beliefs := [];
     family_origins := []; parent_names := []; sibling_names := [];
     gender := None; style := Some ""; starts_with := None;
     max_length := None; uniqueness := None |}.

(** [{surname: "Day", gender: "girl", max_length: 5}] *)
Definition short_girl_pref : Preference :=
  {| surname := "Day"; cultures := []; languages := []; beliefs := [];
     family_origins := []; parent_names := []; sibling_names := [];
     gender := Some "girl"; style := None; starts_with := None;
     max_length := Some 5%Z; uniqueness := None |}.

Definition james : NameRecord :=
  mk "James" "boy" "English" "supplanter" ["classic"; "biblical"] 0.2.

Definition noah : NameRecord :=
  mk "Noah" "boy" "Hebrew" "rest, comfort" ["biblical"; "classic"] 0.22.

(** A sink that raises on every call. *)
Definition failing_sink {World : Type}
  : string -> Generation -> World -> result string * World :=
  fun _ _ w => (Raise (OtherException "store unavailable"), w).

(** A sink that appends the document to a list and returns an identifier. *)
Definition list_sink
  : string -> Generation -> list Generation -> result string * list Generation :=
  fun _ gen w => (Ok "stored", (w ++ [gen])%list).

End Scenarios.

(** A record fails a hard filter, in the specification's words. *)
Definition fails_filter (pref : Preference) (item : NameRecord) : Prop :=
  (exists L, max_length pref = Some L /\ (L < Py.len (item_name item))%Z)
  \/ (exists g, gender pref = Some g
                /\ item_gender item <> g /\ item_gender item <> "unisex"%string).

(* ================================================================== *)
(** ** Binary64 numbers as integers

    A finite double is an integer multiple of 2^-1074; [ext] gives that
    integer, and plus or minus 2^2100 for the infinities, so that the order
    of doubles that are not NaN is the order of their [ext]. *)

Section Binary64Values.
Open Scope Z_scope.

Definition ext (x : spec_float) : Z :=
  match x with
  | S754_zero _ => 0
  | S754_infinity s => cond_Zopp s (2 ^ 2100)
  | S754_nan => 0
  | S754_finite s m e => cond_Zopp s (Zpos m * 2 ^ (e + 1074))
  end.

Definition sf_not_nan (x : spec_float) : bool :=
  match x with S754_nan => false | _ => true end.

Definition sf_finite (x : spec_float) : bool :=
  match x with
  | S754_zero _ | S754_finite _ _ _ => true
  | _ => false
  end.

Definition fval (x : float) : Z := ext (Prim2SF x).

Definition not_nan (x : float) : bool := sf_not_nan (Prim2SF x).

Definition finite_float (x : float) : bool := sf_finite (Prim2SF x).

(** A shift record that carries no round bit and no sticky bit. *)
Definition exact_record (mrs : shr_record) : bool :=
  negb (shr_r mrs) && negb (shr_s mrs).

(** A positive number of binary64, as a multiple of 2^-1074. *)
Definition representable (B : Z) : Prop :=
  exists mb eb, valid_binary (S754_finite false mb eb) = true
                /\ B = Zpos mb * 2 ^ (eb + 1074).

(** Zero, or plus or minus a positive number of binary64. *)
Definition srep (B : Z) : Prop := B = 0 \/ representable B \/ representable (- B).

(** [round3] on these integers.  For [n] thousandths, [0 < n], the nearest
    double to [n/1000]: *)
Definition thousandth_value (n : Z) : Z :=
  rhe_div (n * 2 ^ (52 - binade n)) 1000 * 2 ^ (binade n + 1022).

(** for a magnitude below 2^49, *)
Definition round3_mag (v : Z) : Z :=
  let n := rhe_div (1000 * v) (2 ^ 1074) in
  if n =? 0 then 0 else thousandth_value n.

(** for any magnitude (from 2^49 on a double is a multiple of 1/8), *)
Definition round3_val (v : Z) : Z :=
  if v <? 2 ^ 1123 then round3_mag v else v.

(** and for any value, the sign being kept. *)
Definition signed_round3 (v : Z) : Z :=
  if 0 <=? v then round3_val v else - round3_val (- v).

End Binary64Values.

Ltac cmp_solve :=
  cbn [cond_Zopp]; f_equal; symmetry;
  first [ apply Z.compare_refl
        | apply Z.compare_lt_iff; lia
        | apply Z.compare_gt_iff; lia ].

(* ================================================================== *)
(** ** Order of a ranked list *)

(** [a] comes before [b] in [l]. *)
Definition precedes {A : Type} (l : list A) (a b : A) : Prop :=
  exists l1 l2 l3, l = l1 ++ a :: l2 ++ b :: l3.

(** The key of [a] is not below the key of [b]: [key b <= key a]. *)
Definition key_ge {A : Type} (key : A -> float) (a b : A) : Prop :=
  PrimFloat.leb (key b) (key a) = true.

(** The three uniqueness contributions of a record are finite numbers. *)
Definition uniqueness_terms_finite (item : NameRecord) : bool :=
  let pop := item_popularity item in
  finite_float (max0 (0.8 - pop)) && finite_float pop && finite_float (balanced_term pop).

(* ================================================================== *)
(** ** Variations of a preference *)

Section PreferenceVariations.

Import Py.

(** The optional fields that Python reads as false (an empty text, the int
    0) replaced by [None], and the empty sibling names dropped. *)
Definition unset_falsy (pref : Preference) : Preference :=
  {| surname := surname pref;
     cultures := cultures pref;
     languages := languages pref;
     beliefs := beliefs pref;
     family_origins := family_origins pref;
     parent_names := parent_names pref;
     sibling_names := filter nonempty (sibling_names pref);
     gender := truthy (gender pref);
     style := truthy (style pref);
     starts_with := truthy (starts_with pref);
     max_length := truthy_int (max_length pref);
     uniqueness := truthy (uniqueness pref) |}.

(** The texts that [score_name] lower-cases, lower-cased; [gender] and
    [uniqueness], which it compares as they are, are kept. *)
Definition lower_text (pref : Preference) : Preference :=
  {| surname := lower (surname pref);
     cultures := map lower (cultures pref);
     languages := map lower (languages pref);
     beliefs := map lower (beliefs pref);
     family_origins := family_origins pref;
     parent_names := parent_names pref;
     sibling_names := map lower (sibling_names pref);
     gender := gender pref;
     style := option_map lower (style pref);
     starts_with := option_map lower (starts_with pref);
     max_length := max_length pref;
     uniqueness := uniqueness pref |}.

(** [pref] with other [family_origins] and [parent_names]. *)
Definition with_family (pref : Preference) (origins parents : list string) : Preference :=
  {| surname := surname pref;
     cultures := cultures pref;
     languages := languages pref;
     beliefs := beliefs pref;
     family_origins := origins;
     parent_names := parents;
     sibling_names := sibling_names pref;
     gender := gender pref;
     style := style pref;
     starts_with := starts_with pref;
     max_length := max_length pref;
     uniqueness := uniqueness pref |}.

(** [pref] with other [sibling_names]. *)
Definition with_siblings (pref : Preference) (sibs : list string) : Preference :=
  {| surname := surname pref;
     cultures := cultures pref;
     languages := languages pref;
     beliefs := beliefs pref;
     family_origins := family_origins pref;
     parent_names := parent_names pref;
     sibling_names := sibs;
     gender := gender pref;
     style := style pref;
     starts_with := starts_with pref;
     max_length := max_length pref;
     uniqueness := uniqueness pref |}.

(** How many of the two sibling rules fire for [sib] on [item]. *)
Definition sibling_penalties (item : NameRecord) (sib : string) : nat :=
  if nonempty sib then
    (if startswith (lower (item_name item)) (first_chars 1 (lower sib)) then 1 else 0)
    + (if (2 <? len (lower sib))%Z
          && endswith (lower (item_name item)) (last_chars 2 (lower sib))
       then 1 else 0)
  else 0.

(** One sibling penalty. *)
Definition penalty (x : float) : float := (x - 0.3)%float.

End PreferenceVariations.

(** [{surname: "Smith", gender: "Boy"}]: a gender written with a capital. *)
Definition capital_boy_pref : Preference :=
  {| surname := "Smith"; cultures := []; languages := []; beliefs := [];
     family_origins := []; parent_names := []; sibling_names := [];
     gender := Some "Boy"%string; style := None; starts_with := None;
     max_length := None; uniqueness := None |}.

(** [{surname: "Smith", cultures: [""], languages: [""], beliefs: [""]}]:
    lists that hold one empty text each. *)
Definition blank_lists_pref : Preference :=
  {| surname := "Smith"; cultures := [""%string]; languages := [""%string];
     beliefs := [""%string];
     family_origins := []; parent_names := []; sibling_names := [];
     gender := None; style := None; starts_with := None;
     max_length := None; uniqueness := None |}.

(** [{surname: "Smith", sibling_names: ["Jack", "Nora"]}] *)
Definition siblings_pref : Preference :=
  {| surname := "Smith"; cultures := []; languages := []; beliefs := [];
     family_origins := []; parent_names := [];
     sibling_names := ["Jack"%string; "Nora"%string];
     gender := None; style := None; starts_with := None;
     max_length := None; uniqueness := None |}.

(** The record of [BASIC_NAMES] for Wei, a unisex name. *)
Definition wei : NameRecord :=
  mk "Wei"%string "unisex"%string "Chinese"%string "great, mighty"%string
     ["virtue"%string] 0.06%float.

(* ================================================================== *)
(** ** The history endpoint ([api_history])

    [get_documents] belongs to the [database] module, which is not among
    the sources: it is a parameter, as [create_document] is. *)

Section History.

Open Scope string_scope.
Import Py.

(** A value held by a stored document: a [str], or any other object (an
    ObjectId, a datetime, a nested document), of which [coerce] reads
    nothing but [str(v)]. *)
Inductive value : Type :=
| VStr (s : string)
| VObject (text : string).

(** [str(v)] *)
Definition py_str (v : value) : string :=
  match v with
  | VStr s => s
  | VObject text => text
  end.

(** A Python dict with [str] keys: its items, in insertion order. *)
Definition document : Type := list (string * value).

(** [d.get(k)]; [k in d] is [dict_get k d <> None]. *)
Fixpoint dict_get (k : string) (d : document) : option value :=
  match d with
  | [] => None
  | (k', v) :: d' => if String.eqb k' k then Some v else dict_get k d'
  end.

(** [d[k] = v]: the item of key [k] takes the value [v] where it stands; a
    new key goes last. *)
Fixpoint dict_set (k : string) (v : value) (d : document) : document :=
  match d with
  | [] => [(k, v)]
  | (k', v') :: d' =>
      if String.eqb k' k then (k', v) :: d' else (k', v') :: dict_set k v d'
  end.

(** [if k in d: d[k] = str(d[k])] *)
Definition stringify (k : string) (d : document) : document :=
  match dict_get k d with
  | Some v => dict_set k (VStr (py_str v)) d
  | None => d
  end.

(** The inner function [coerce]; [dict(d)] copies [d]. *)
Definition coerce (d : document) : document :=
  let d := stringify "_id" d in
  let d := stringify "created_at" d in
  let d := stringify "updated_at" d in
  d.

(** [str(e)] *)
Definition exn_text (e : exn) : string :=
  match e with
  | IndexError => "string index out of range"
  | OtherException msg => msg
  end.

(** What a handler gives: a response body, or an [HTTPException]. *)
Inductive http (A : Type) : Type :=
| Respond (body : A)
| HTTPException (status_code : Z) (detail : string).

Record HistoryResponse : Type := {
  items : list document
}.

Variable World : Type.
Variable get_documents
  : string -> document -> Z -> World -> result (list document) * World.

Definition api_history (limit : Z) (w : World) : http HistoryResponse * World :=
  match get_documents "generation" [] limit w with
  | (Ok docs, w') => (Respond _ {| items := map coerce docs |}, w')
  | (Raise e, w') => (HTTPException _ 500 (exn_text e), w')
  end.

End History.

Arguments Respond {A} body.
Arguments HTTPException {A} status_code detail.
Arguments api_history {World} get_documents limit w.

(** The keys whose values [coerce] turns into text. *)
Definition coerced_key (k : string) : bool :=
  (String.eqb k "_id" || String.eqb k "created_at" || String.eqb k "updated_at")%string.

(** The value at [k], if there is one, is a text. *)
Definition text_at (k : string) (d : document) : Prop :=
  forall v, dict_get k d = Some v -> exists s, v = VStr s.

(** A store that holds [docs] and gives the first [limit] of them. *)
Definition list_store (docs : list document)
  : string -> document -> Z -> unit -> result (list document) * unit :=
  fun _ _ limit w => (Ok (Py.slice_to docs limit), w).

(** A store that raises on every call. *)
Definition failing_store {World : Type}
  : string -> document -> Z -> World -> result (list document) * World :=
  fun _ _ _ w => (Raise (OtherException "store unavailable"), w).

(** A logged generation, as the store gives it back. *)
Definition logged_document : document :=
  [("_id", VObject "65f0c0ffee"); ("notes", VObject "None");
   ("created_at", VObject "2024-03-12 10:00:00")]%string.

(* ================================================================== *)
(** ** The health check ([test_database])

    The handle [db] of the [database] module and the environment are
    parameters.  The fixed texts of the response are kept byte for byte
    (UTF-8); they are stored and concatenated, never measured. *)

Section HealthCheck.

Open Scope string_scope.
Import Py.

Record TestResponse : Type := {
  backend : string;
  database : string;
  database_url : option string;
  database_name : option string;
  connection_status : string;
  collections : list string
}.

Definition set_database (v : string) (r : TestResponse) : TestResponse :=
  {| backend := backend r; database := v; database_url := database_url r;
     database_name := database_name r; connection_status := connection_status r;
     collections := collections r |}.

Definition set_database_url (v : option string) (r : TestResponse) : TestResponse :=
  {| backend := backend r; database := database r; database_url := v;
     database_name := database_name r; connection_status := connection_status r;
     collections := collections r |}.

Definition set_database_name (v : option string) (r : TestResponse) : TestResponse :=
  {| backend := backend r; database := database r; database_url := database_url r;
     database_name := v; connection_status := connection_status r;
     collections := collections r |}.

Definition set_connection_status (v : string) (r : TestResponse) : TestResponse :=
  {| backend := backend r; database := database r; database_url := database_url r;
     database_name := database_name r; connection_status := v;
     collections := collections r |}.

Definition set_collections (v : list string) (r : TestResponse) : TestResponse :=
  {| backend := backend r; database := database r; database_url := database_url r;
     database_name := database_name r; connection_status := connection_status r;
     collections := v |}.

(** Reading an attribute of an object: it is absent ([hasattr] is false),
    it has a value, or reading it raises. *)
Inductive attribute (A : Type) : Type :=
| Absent
| Present (a : A)
| Raising (e : exn).

(** The database handle: its [name] attribute, and what
    [list_collection_names()] gives. *)
Record Database : Type := {
  db_name : attribute string;
  list_collection_names : result (list string)
}.

Definition test_database (db : option Database) (getenv : string -> option string)
  : TestResponse :=
  let response :=
    {| backend := "✅ Running";
       database := "❌ Not Available";
       database_url := None;
       database_name := None;
       connection_status := "Not Connected";
       collections := [] |} in
  let response :=
    match db with
    | Some handle =>
        let response := set_database "✅ Available" response in
        let response := set_database_url (Some "✅ Configured") response in
        match db_name handle with
        | Raising _ e =>
            set_database ("❌ Error: " ++ first_chars 50 (exn_text e)) response
        | name =>
            let response :=
              set_database_name
                (Some match name with Present _ n => n | _ => "✅ Connected" end)
                response in
            let response := set_connection_status "Connected" response in
            match list_collection_names handle with
            | Ok names =>
                let response := set_collections (slice_to names 10) response in
                set_database "✅ Connected & Working" response
            | Raise e =>
                set_database
                  ("⚠️  Connected but Error: " ++ first_chars 50 (exn_text e))
                  response
            end
        end
    | None => set_database "⚠️  Available but not initialized" response
    end in
  let response :=
    set_database_url
      (Some match truthy (getenv "DATABASE_URL") with
            | Some _ => "✅ Set" | None => "❌ Not Set" end)
      response in
  let response :=
    set_database_name
      (Some match truthy (getenv "DATABASE_NAME") with
            | Some _ => "✅ Set" | None => "❌ Not Set" end)
      response in
  response.

End HealthCheck.

Arguments Absent {A}.
Arguments Present {A} a.
Arguments Raising {A} e.

(* ================================================================== *)
(** * Properties *)

(** ** The result monad *)

Lemma bind_ok {A B : Type} (r : result A) (k : A -> result B) (b : B) :
  bind r k = Ok b -> exists a, r = Ok a /\ k a = Ok b.
Proof.
  destruct r as [a|e]; simpl; intros H; [exists a; auto | discriminate].
Qed.

(** ** Python strings *)

Module PyFacts.
Import Py.

Lemma lower_length (s : string) : String.length (lower s) = String.length s.
Proof. induction s as [|c s IH]; simpl; congruence. Qed.

Lemma lower_len (s : string) : len (lower s) = len s.
Proof. unfold len. now rewrite lower_length. Qed.

Lemma lower_nonempty (s : string) : nonempty (lower s) = nonempty s.
Proof. now destruct s. Qed.

Lemma lower_substring (s : string) (n m : nat) :
  lower (substring n m s) = substring n m (lower s).
Proof.
  revert n m. induction s as [|c s IH]; intros n m.
  - destruct n, m; reflexivity.
  - destruct n as [|n]; simpl.
    + destruct m as [|m]; simpl; [reflexivity | now rewrite IH].
    + apply IH.
Qed.

Lemma lower_last_chars (k : nat) (s : string) :
  lower (last_chars k s) = last_chars k (lower s).
Proof. unfold last_chars. now rewrite lower_substring, lower_length. Qed.

Lemma lower_first_chars (k : nat) (s : string) :
  lower (first_chars k s) = first_chars k (lower s).
Proof. unfold first_chars. apply lower_substring. Qed.

Lemma first_char_nonempty (s : string) :
  nonempty s = true -> exists c, first_char s = Ok c.
Proof. destruct s as [|c s]; [discriminate | now exists c]. Qed.

Lemma slice_to_0 {A : Type} (l : list A) : slice_to l 0 = [].
Proof. reflexivity. Qed.

Lemma firstn_incl {A : Type} (n : nat) (l : list A) (x : A) :
  In x (firstn n l) -> In x l.
Proof.
  intros H. rewrite <- (firstn_skipn n l). apply in_or_app. now left.
Qed.

Lemma slice_to_incl {A : Type} (l : list A) (k : Z) (x : A) :
  In x (slice_to l k) -> In x l.
Proof.
  unfold slice_to. destruct (0 <=? k)%Z; apply firstn_incl.
Qed.

Lemma slice_to_length {A : Type} (l : list A) (k : Z) :
  (0 <= k)%Z -> List.length (slice_to l k) = Nat.min (Z.to_nat k) (List.length l).
Proof.
  intros Hk. unfold slice_to.
  destruct (Z.leb_spec 0 k); [apply length_firstn | lia].
Qed.

End PyFacts.

(** ** The catalog *)

Lemma catalog_records_ok : forallb record_ok BASIC_NAMES = true.
Proof. reflexivity. Qed.

Lemma catalog_record_ok (item : NameRecord) :
  In item BASIC_NAMES -> record_ok item = true.
Proof.
  intros H. pose proof catalog_records_ok as Hall.
  rewrite forallb_forall in Hall. now apply Hall.
Qed.

Lemma record_ok_name (item : NameRecord) :
  record_ok item = true -> Py.nonempty (item_name item) = true.
Proof. unfold record_ok. intros H. now apply andb_prop in H. Qed.

Lemma record_ok_origin (item : NameRecord) :
  record_ok item = true -> Py.nonempty (item_origin item) = true.
Proof. unfold record_ok. intros H. now apply andb_prop in H. Qed.

(** ** Totality of scoring and ranking *)

Section Totality.
Import Py PyFacts.

Lemma surname_step_total (pref : Preference) (item : NameRecord) (score : float) :
  nonempty (item_name item) = true ->
  exists score', surname_step pref item score = Ok score'.
Proof.
  intros Hn. unfold surname_step.
  destruct (nonempty (surname pref)) eqn:Hs; [|eauto].
  destruct (first_char_nonempty (lower (item_name item))) as [n0 ->];
    [now rewrite lower_nonempty|].
  destruct (first_char_nonempty (lower (surname pref))) as [s0 ->];
    [now rewrite lower_nonempty|].
  simpl. eauto.
Qed.

Lemma score_name_total (pref : Preference) (item : NameRecord) :
  nonempty (item_name item) = true ->
  exists score, score_name pref item = Ok score.
Proof.
  intros Hn. unfold score_name.
  match goal with
  | |- context [surname_step pref item ?s] =>
      destruct (surname_step_total pref item s Hn) as [s' ->]
  end.
  simpl. eauto.
Qed.

(** Without the invariant the surname heuristic does raise. *)
Lemma score_name_empty_name (pref : Preference) (item : NameRecord) :
  item_name item = EmptyString -> nonempty (surname pref) = true ->
  score_name pref item = Raise IndexError.
Proof.
  intros Hn Hs. unfold score_name, surname_step. now rewrite Hs, Hn.
Qed.

Lemma rank_total (pref : Preference) (items : list NameRecord) :
  (forall item, In item items -> nonempty (item_name item) = true) ->
  exists ranked, rank pref items = Ok ranked.
Proof.
  induction items as [|item rest IH]; intros Hall; simpl; [eauto|].
  destruct (score_name_total pref item) as [s ->]; [apply Hall; now left|].
  destruct IH as [ranked ->]; [intros; apply Hall; now right|].
  simpl. eauto.
Qed.

(** What [rank] returns: the eligible records, in order, each with its score. *)
Lemma rank_ok (pref : Preference) (items : list NameRecord)
  (ranked : list (float * NameRecord)) :
  rank pref items = Ok ranked ->
  map snd ranked = eligible pref items
  /\ (forall p, In p ranked -> score_name pref (snd p) = Ok (fst p)).
Proof.
  revert ranked. induction items as [|item rest IH]; simpl; intros ranked H.
  - injection H as <-. split; [reflexivity | intros p []].
  - apply bind_ok in H as (s & Hs & H).
    apply bind_ok in H as (r & Hr & H).
    injection H as <-. destruct (IH r Hr) as [IH1 IH2].
    destruct (excluded pref item); simpl; [now split|].
    split; [now f_equal|].
    intros p [<-|Hp]; [assumption | now apply IH2].
Qed.

Lemma catalog_rank_total (pref : Preference) :
  exists ranked, rank pref BASIC_NAMES = Ok ranked.
Proof.
  apply rank_total. intros item Hin.
  apply record_ok_name. now apply catalog_record_ok.
Qed.

End Totality.

(** ** Sorting keeps the elements *)

Section SortPerm.
Context {A : Type} (key : A -> float).

Lemma insert_desc_perm (x : A) (l : list A) :
  Permutation (insert_desc key x l) (x :: l).
Proof.
  induction l as [|y l IH]; simpl; [reflexivity|].
  destruct (PrimFloat.ltb (key y) (key x)); [reflexivity|].
  rewrite IH. apply perm_swap.
Qed.

Lemma sort_desc_perm_acc (l acc : list A) :
  Permutation (fold_left (fun acc x => insert_desc key x acc) l acc) (acc ++ l).
Proof.
  revert acc. induction l as [|x l IH]; intros acc; simpl.
  - now rewrite app_nil_r.
  - rewrite IH, insert_desc_perm. apply Permutation_middle.
Qed.

Lemma sort_desc_perm (l : list A) : Permutation (sort_desc key l) l.
Proof. apply (sort_desc_perm_acc l []). Qed.

Lemma sort_desc_in (l : list A) (x : A) : In x (sort_desc key l) <-> In x l.
Proof.
  split; apply Permutation_in; [|symmetry]; apply sort_desc_perm.
Qed.

Lemma sort_desc_length (l : list A) : List.length (sort_desc key l) = List.length l.
Proof. apply Permutation_length, sort_desc_perm. Qed.

End SortPerm.

(** ** Names identify the catalog's records *)

Lemma catalog_names_nodup : NoDup (map item_name BASIC_NAMES).
Proof.
  simpl. repeat (constructor; [simpl; intuition discriminate|]). constructor.
Qed.

Lemma nodup_map_inj {A B : Type} (f : A -> B) (l : list A) (a b : A) :
  NoDup (map f l) -> In a l -> In b l -> f a = f b -> a = b.
Proof.
  induction l as [|x l IH]; simpl; intros Hnd Ha Hb Hf; [contradiction|].
  inversion Hnd as [|? ? Hx Hl]; subst.
  destruct Ha as [<-|Ha], Hb as [<-|Hb]; auto.
  - exfalso. apply Hx. rewrite Hf. now apply in_map.
  - exfalso. apply Hx. rewrite <- Hf. now apply in_map.
Qed.

Lemma catalog_name_inj (a b : NameRecord) :
  In a BASIC_NAMES -> In b BASIC_NAMES -> item_name a = item_name b -> a = b.
Proof. apply nodup_map_inj, catalog_names_nodup. Qed.

(** ** What [generate_suggestions] returns *)

Section Generate.
Import Py PyFacts.

(** Every suggestion is the image of an eligible record with its score. *)
Lemma generate_suggestions_ok (pref : Preference) (limit : Z) (out : list Suggestion) :
  generate_suggestions pref limit = Ok out ->
  exists ranked,
    rank pref BASIC_NAMES = Ok ranked
    /\ out = map to_suggestion (slice_to (sort_desc fst ranked) limit).
Proof.
  unfold generate_suggestions. intros H.
  apply bind_ok in H as (ranked & Hr & H). injection H as <-. eauto.
Qed.

Lemma rank_in (pref : Preference) (items : list NameRecord)
  (ranked : list (float * NameRecord)) (score : float) (item : NameRecord) :
  rank pref items = Ok ranked -> In (score, item) ranked ->
  In item items /\ excluded pref item = false /\ score_name pref item = Ok score.
Proof.
  intros Hr Hp. destruct (rank_ok pref items ranked Hr) as [Hel Hsc].
  pose proof (in_map snd ranked (score, item) Hp) as Hin.
  rewrite Hel in Hin. unfold eligible in Hin.
  apply filter_In in Hin as [Hin Hex].
  split; [exact Hin|]. split.
  - apply negb_true_iff in Hex. exact Hex.
  - exact (Hsc (score, item) Hp).
Qed.

Lemma generate_suggestions_from (pref : Preference) (limit : Z)
  (out : list Suggestion) (s : Suggestion) :
  generate_suggestions pref limit = Ok out -> In s out ->
  exists score item,
    s = to_suggestion (score, item)
    /\ In item BASIC_NAMES
    /\ excluded pref item = false
    /\ score_name pref item = Ok score.
Proof.
  intros H Hs. apply generate_suggestions_ok in H as (ranked & Hr & ->).
  apply in_map_iff in Hs as ([score item] & <- & Hp).
  apply slice_to_incl in Hp. apply sort_desc_in in Hp.
  exists score, item. split; [reflexivity|].
  exact (rank_in pref BASIC_NAMES ranked score item Hr Hp).
Qed.

Lemma generate_suggestions_total (pref : Preference) (limit : Z) :
  exists out, generate_suggestions pref limit = Ok out.
Proof.
  unfold generate_suggestions.
  destruct (catalog_rank_total pref) as [ranked ->]. simpl. eauto.
Qed.

Lemma generate_suggestions_length (pref : Preference) (limit : Z)
  (out : list Suggestion) :
  (0 <= limit)%Z -> generate_suggestions pref limit = Ok out ->
  List.length out
  = Nat.min (Z.to_nat limit) (List.length (eligible pref BASIC_NAMES)).
Proof.
  intros Hl H. apply generate_suggestions_ok in H as (ranked & Hr & ->).
  destruct (rank_ok _ _ _ Hr) as [Hel _].
  rewrite length_map, slice_to_length, sort_desc_length by assumption.
  now rewrite <- Hel, length_map.
Qed.

Lemma well_formed_gender (pref : Preference) (g : string) :
  well_formed pref = true -> gender pref = Some g -> truthy (gender pref) = Some g.
Proof.
  unfold well_formed. intros H Hg. rewrite Hg in *.
  apply andb_prop in H as [H _]. apply andb_prop in H as [H _].
  simpl in H. destruct g; [discriminate | reflexivity].
Qed.

Lemma well_formed_max_length (pref : Preference) (L : Z) :
  well_formed pref = true -> max_length pref = Some L ->
  truthy_int (max_length pref) = Some L.
Proof.
  unfold well_formed. intros H HL. rewrite HL in *.
  apply andb_prop in H as [H _]. apply andb_prop in H as [_ H].
  simpl. destruct (Z.eqb_spec L 0); [subst; discriminate | reflexivity].
Qed.

End Generate.

(* ================================================================== *)
(** ** Binary64 arithmetic: order, rounding of sums, [round3] *)

Section Binary64.
Open Scope Z_scope.



Lemma digits2_bounds (m : positive) :
  2 ^ (Zpos (digits2_pos m) - 1) <= Zpos m < 2 ^ Zpos (digits2_pos m).
Proof.
  induction m as [p IH|p IH|]; cbn [digits2_pos].
  - rewrite Pos2Z.inj_succ.
    replace (Z.succ (Zpos (digits2_pos p)) - 1) with (Z.succ (Zpos (digits2_pos p) - 1)) by lia.
    rewrite !Z.pow_succ_r by lia. lia.
  - rewrite Pos2Z.inj_succ.
    replace (Z.succ (Zpos (digits2_pos p)) - 1) with (Z.succ (Zpos (digits2_pos p) - 1)) by lia.
    rewrite !Z.pow_succ_r by lia. lia.
  - simpl. lia.
Qed.

Lemma valid_finite (s : bool) (m : positive) (e : Z) :
  valid_binary (S754_finite s m e) = true ->
  -1074 <= e <= 971
  /\ Zpos (digits2_pos m) <= 53
  /\ (-1074 < e -> Zpos (digits2_pos m) = 53).
Proof.
  unfold valid_binary, bounded, canonical_mantissa, fexp, SpecFloat.emin, prec, emax.
  intros H. apply andb_prop in H as [H1 H2].
  apply Z.eqb_eq in H1. apply Z.leb_le in H2. lia.
Qed.

Lemma pow2_pos (k : Z) : 0 <= k -> 0 < 2 ^ k.
Proof. intros. apply Z.pow_pos_nonneg; lia. Qed.

Lemma pow2_le (a b : Z) : 0 <= a <= b -> 2 ^ a <= 2 ^ b.
Proof. intros. apply Z.pow_le_mono_r; lia. Qed.

Lemma pow2_lt (a b : Z) : 0 <= a < b -> 2 ^ a < 2 ^ b.
Proof. intros. apply Z.pow_lt_mono_r; lia. Qed.

(** magnitude bounds of a valid finite_float float *)
Lemma valid_magnitude (s : bool) (m : positive) (e : Z) :
  valid_binary (S754_finite s m e) = true ->
  0 < Zpos m * 2 ^ (e + 1074) < 2 ^ (e + 1127)
  /\ (-1074 < e -> 2 ^ (e + 1126) <= Zpos m * 2 ^ (e + 1074)).
Proof.
  intros Hv. destruct (valid_finite s m e Hv) as (He & Hd & Hn).
  pose proof (digits2_bounds m) as [Hlo Hhi].
  assert (Hm : Zpos m < 2 ^ 53).
  { eapply Z.lt_le_trans; [exact Hhi|]. apply pow2_le. lia. }
  pose proof (pow2_pos (e + 1074) ltac:(lia)) as Hp.
  replace (e + 1127) with (53 + (e + 1074)) by lia.
  replace (e + 1126) with (52 + (e + 1074)) by lia.
  rewrite (Z.pow_add_r 2 53 (e + 1074)), (Z.pow_add_r 2 52 (e + 1074)) by lia.
  split; [split; [apply Z.mul_pos_pos; lia | apply Z.mul_lt_mono_pos_r; lia]|].
  intros Hgt. rewrite (Hn Hgt) in Hlo. change (53 - 1) with 52 in Hlo.
  apply Z.mul_le_mono_nonneg_r; lia.
Qed.

Lemma cmp_canonical (s1 s2 : bool) (m1 m2 : positive) (e1 e2 : Z) :
  valid_binary (S754_finite s1 m1 e1) = true ->
  valid_binary (S754_finite s2 m2 e2) = true ->
  match e1 ?= e2 with
  | Lt => Lt
  | Gt => Gt
  | Eq => Pos.compare_cont Eq m1 m2
  end = (Zpos m1 * 2 ^ (e1 + 1074) ?= Zpos m2 * 2 ^ (e2 + 1074)).
Proof.
  intros H1 H2.
  destruct (valid_magnitude _ _ _ H1) as [[_ Hu1] Hl1].
  destruct (valid_magnitude _ _ _ H2) as [[_ Hu2] Hl2].
  destruct (valid_finite _ _ _ H1) as (He1 & _).
  destruct (valid_finite _ _ _ H2) as (He2 & _).
  destruct (Z.compare_spec e1 e2) as [->|Hlt|Hgt].
  - change (Pos.compare_cont Eq m1 m2) with (Zpos m1 ?= Zpos m2).
    pose proof (pow2_pos (e2 + 1074) ltac:(lia)).
    symmetry. destruct (Z.compare_spec (Zpos m1) (Zpos m2)) as [E|L|G].
    + rewrite E. apply Z.compare_refl.
    + apply Z.compare_lt_iff. apply Z.mul_lt_mono_pos_r; lia.
    + apply Z.compare_gt_iff. apply Z.mul_lt_mono_pos_r; lia.
  - symmetry. apply Z.compare_lt_iff.
    specialize (Hl2 ltac:(lia)).
    eapply Z.lt_le_trans; [exact Hu1|].
    eapply Z.le_trans; [|exact Hl2]. apply pow2_le. lia.
  - symmetry. apply Z.compare_gt_iff.
    specialize (Hl1 ltac:(lia)).
    eapply Z.lt_le_trans; [exact Hu2|].
    eapply Z.le_trans; [|exact Hl1]. apply pow2_le. lia.
Qed.

Lemma ext_finite_bound (s : bool) (m : positive) (e : Z) :
  valid_binary (S754_finite s m e) = true ->
  0 < Zpos m * 2 ^ (e + 1074) < 2 ^ 2100.
Proof.
  intros Hv. destruct (valid_magnitude _ _ _ Hv) as [[Hp Hu] _].
  destruct (valid_finite _ _ _ Hv) as (He & _).
  split; [assumption|]. eapply Z.lt_le_trans; [exact Hu|]. apply pow2_le. lia.
Qed.

Lemma SFcompare_ext (x y : spec_float) :
  valid_binary x = true -> valid_binary y = true ->
  sf_not_nan x = true -> sf_not_nan y = true ->
  SFcompare x y = Some (ext x ?= ext y).
Proof.
  intros Hx Hy Nx Ny.
  assert (P : 0 < 2 ^ 2100) by (apply pow2_pos; lia).
  destruct x as [sx|sx| |sx mx ex], y as [sy|sy| |sy my ey];
    try discriminate; cbn [SFcompare ext];
    try pose proof (ext_finite_bound _ _ _ Hx);
    try pose proof (ext_finite_bound _ _ _ Hy).
  - reflexivity.
  - destruct sy; cmp_solve.
  - destruct sy; cmp_solve.
  - destruct sx; cmp_solve.
  - destruct sx, sy; cmp_solve.
  - destruct sx, sy; cmp_solve.
  - destruct sx; cmp_solve.
  - destruct sx, sy; cmp_solve.
  - pose proof (cmp_canonical sx sy mx my ex ey Hx Hy) as Hc.
    destruct sx, sy; try cmp_solve; cbn [cond_Zopp]; f_equal.
    + rewrite (Z.compare_opp (Zpos mx * 2 ^ (ex + 1074)) (Zpos my * 2 ^ (ey + 1074))).
      rewrite (Z.compare_antisym (Zpos mx * 2 ^ (ex + 1074))), <- Hc.
      destruct (ex ?= ey); reflexivity.
    + exact Hc.
Qed.

Lemma iter_pos_nat {A : Type} (f : A -> A) (p : positive) (x : A) :
  iter_pos f p x = Nat.iter (Pos.to_nat p) f x.
Proof.
  revert x. induction p as [p IH|p IH|]; intros x; cbn [iter_pos].
  - rewrite !IH, <- Nat.iter_add, <- Nat.iter_succ_r.
    f_equal. rewrite Pos2Nat.inj_xI. lia.
  - rewrite !IH, <- Nat.iter_add. f_equal. rewrite Pos2Nat.inj_xO. lia.
  - reflexivity.
Qed.

Lemma shr_1_m (mrs : shr_record) :
  0 <= shr_m mrs -> shr_m (shr_1 mrs) = shr_m mrs / 2.
Proof.
  destruct mrs as [m r s]. cbn [shr_m]. intros Hm.
  rewrite <- Z.div2_div.
  destruct m as [|[p|p|]|p]; try reflexivity; lia.
Qed.

Lemma shr_1_exact (mrs : shr_record) :
  0 <= shr_m mrs -> exact_record mrs = true -> Z.even (shr_m mrs) = true ->
  exact_record (shr_1 mrs) = true.
Proof.
  destruct mrs as [m [|] [|]]; cbn [shr_m exact_record shr_r shr_s negb andb];
    try discriminate.
  intros Hm _ He. destruct m as [|[p|p|]|p]; try reflexivity; try discriminate; lia.
Qed.

Lemma pow2_succ_nat (k : nat) : 2 ^ Z.of_nat (S k) = 2 * 2 ^ Z.of_nat k.
Proof. rewrite Nat2Z.inj_succ, Z.pow_succ_r by lia. reflexivity. Qed.

Lemma shr_iter (k : nat) (m : Z) :
  0 <= m ->
  let mrs := Nat.iter k shr_1 (Build_shr_record m false false) in
  shr_m mrs = m / 2 ^ Z.of_nat k
  /\ (m mod 2 ^ Z.of_nat k = 0 -> exact_record mrs = true).
Proof.
  intros Hm. induction k as [|k [IHm IHe]]; cbn zeta.
  - change (Nat.iter 0 shr_1 (Build_shr_record m false false))
      with (Build_shr_record m false false).
    cbn [shr_m]. change (2 ^ Z.of_nat 0) with 1.
    rewrite Z.div_1_r. split; [reflexivity | intros _; reflexivity].
  - cbn zeta in IHm, IHe. rewrite Nat.iter_succ.
    set (mrs := Nat.iter k shr_1 (Build_shr_record m false false)) in *.
    assert (Hk : 0 < 2 ^ Z.of_nat k) by (apply pow2_pos; lia).
    assert (Hq : 0 <= shr_m mrs) by (rewrite IHm; apply Z.div_pos; lia).
    rewrite pow2_succ_nat. split.
    + rewrite (shr_1_m mrs Hq), IHm, Z.div_div by lia.
      f_equal. lia.
    + intros Hmod.
      assert (Hd : m = 2 * 2 ^ Z.of_nat k * (m / (2 * 2 ^ Z.of_nat k))).
      { apply Z.div_exact; [lia | assumption]. }
      set (c := m / (2 * 2 ^ Z.of_nat k)) in *.
      assert (Hmk : m mod 2 ^ Z.of_nat k = 0).
      { rewrite Hd. replace (2 * 2 ^ Z.of_nat k * c) with ((2 * c) * 2 ^ Z.of_nat k) by lia.
        apply Z.mod_mul. lia. }
      apply shr_1_exact; [assumption | now apply IHe |].
      rewrite IHm, Hd.
      replace (2 * 2 ^ Z.of_nat k * c) with ((2 * c) * 2 ^ Z.of_nat k) by lia.
      rewrite Z.div_mul by lia. rewrite Z.even_mul. reflexivity.
Qed.

(** [shr] from an exact record: floor division by [2^n], exact when [2^n] divides. *)
Lemma shr_exact_spec (m e n : Z) (mrs : shr_record) (e' : Z) :
  0 <= m ->
  shr (Build_shr_record m false false) e n = (mrs, e') ->
  shr_m mrs = m / 2 ^ Z.max 0 n
  /\ e' = e + Z.max 0 n
  /\ (m mod 2 ^ Z.max 0 n = 0 -> exact_record mrs = true).
Proof.
  intros Hm. unfold shr. destruct n as [|p|p]; intros H; injection H as <- <-.
  - change (Z.max 0 0) with 0. change (2 ^ 0) with 1. rewrite Z.div_1_r.
    cbn [shr_m]. repeat split; lia.
  - rewrite iter_pos_nat.
    replace (Z.max 0 (Zpos p)) with (Z.of_nat (Pos.to_nat p)) by lia.
    destruct (shr_iter (Pos.to_nat p) m Hm) as [H1 H2].
    repeat split; [exact H1 | lia | exact H2].
  - replace (Z.max 0 (Zneg p)) with 0 by lia. change (2 ^ 0) with 1.
    rewrite Z.div_1_r. cbn [shr_m]. repeat split; lia.
Qed.

Lemma rne_bounds (q : Z) (mrs : shr_record) :
  shr_m mrs = q ->
  let m1 := round_nearest_even (shr_m mrs) (loc_of_shr_record mrs) in
  q <= m1 <= q + 1 /\ (exact_record mrs = true -> m1 = q).
Proof.
  destruct mrs as [m [|] [|]]; cbn [shr_m loc_of_shr_record round_nearest_even exact_record
                                     shr_r shr_s negb andb]; intros ->; cbn zeta.
  - split; [lia | discriminate].
  - split; [destruct (Z.even q); lia | discriminate].
  - split; [lia | discriminate].
  - split; [lia | reflexivity].
Qed.

Lemma fexp_eq (z : Z) : fexp prec emax z = Z.max (z - 53) (-1074).
Proof. reflexivity. Qed.

Lemma Zdigits2_bounds (z : Z) :
  0 < z -> 2 ^ (Zdigits2 z - 1) <= z < 2 ^ Zdigits2 z.
Proof.
  destruct z as [|p|p]; try lia. intros _. apply digits2_bounds.
Qed.

Lemma Zdigits2_pos (z : Z) : 0 < z -> 0 < Zdigits2 z.
Proof. destruct z; simpl; lia. Qed.

(** The quotient kept by the first shift of [binary_round_aux]. *)
Lemma quotient_bounds (m : positive) (e t : Z) :
  t = Z.max (Zpos (digits2_pos m) + e - 53) (-1074) -> e <= t ->
  Zpos m / 2 ^ (t - e) < 2 ^ 53
  /\ (-1074 < t -> 2 ^ 52 <= Zpos m / 2 ^ (t - e)).
Proof.
  intros Ht Hle. pose proof (digits2_bounds m) as [Hlo Hhi].
  set (d := Zpos (digits2_pos m)) in *.
  assert (Hn : 0 < 2 ^ (t - e)) by (apply pow2_pos; lia).
  split.
  - apply Z.div_lt_upper_bound; [assumption|].
    rewrite <- Z.pow_add_r by lia.
    eapply Z.lt_le_trans; [exact Hhi|]. apply pow2_le. lia.
  - intros Hgt. apply Z.div_le_lower_bound; [assumption|].
    rewrite <- Z.pow_add_r by lia.
    eapply Z.le_trans; [|exact Hlo]. apply pow2_le. lia.
Qed.

(** What [binary_round_aux] returns on an exact positive mantissa whose
    exponent is at most the target exponent [t]. *)
Lemma binary_round_aux_value (s : bool) (m : positive) (e t : Z) :
  t = Z.max (Zpos (digits2_pos m) + e - 53) (-1074) -> e <= t ->
  exists m1,
    Zpos m / 2 ^ (t - e) <= m1 <= Zpos m / 2 ^ (t - e) + 1
    /\ (Zpos m mod 2 ^ (t - e) = 0 -> m1 = Zpos m / 2 ^ (t - e))
    /\ let r := binary_round_aux prec emax s (Zpos m) e loc_Exact in
       (m1 = 0 /\ r = S754_zero s)
       \/ (exists m2 e2, r = S754_finite s m2 e2
                         /\ Zpos m2 * 2 ^ (e2 + 1074) = m1 * 2 ^ (t + 1074))
       \/ (r = S754_infinity s /\ 2 ^ 2098 <= m1 * 2 ^ (t + 1074)).
Proof.
  intros Ht Hle.
  destruct (quotient_bounds m e t Ht Hle) as [Hq53 Hq52].
  set (q := Zpos m / 2 ^ (t - e)) in *.
  assert (Hq0 : 0 <= q) by (apply Z.div_pos; [lia | apply pow2_pos; lia]).
  unfold binary_round_aux, shr_fexp.
  cbn [shr_record_of_loc Zdigits2].
  rewrite fexp_eq, <- Ht.
  destruct (shr (Build_shr_record (Zpos m) false false) e (t - e)) as [mrs' e'] eqn:E1.
  apply shr_exact_spec in E1 as (Hm' & He' & Hex'); [|lia].
  replace (Z.max 0 (t - e)) with (t - e) in * by lia.
  assert (He't : e' = t) by lia. subst e'.
  fold q in Hm'.
  destruct (rne_bounds q mrs' Hm') as [Hm1 Hm1ex].
  set (m1 := round_nearest_even (shr_m mrs') (loc_of_shr_record mrs')) in *.
  exists m1. split; [exact Hm1|]. split; [intros Hd; apply Hm1ex, Hex', Hd|].
  cbn zeta. replace (e + (t - e)) with t by lia.
  assert (Ht74 : -1074 <= t) by lia.
  assert (Hpt : 0 < 2 ^ (t + 1074)) by (apply pow2_pos; lia).
  destruct (shr (Build_shr_record m1 false false) t
              (fexp prec emax (Zdigits2 m1 + t) - t)) as [mrs'' e''] eqn:E2.
  apply shr_exact_spec in E2 as (Hm'' & He'' & _); [|lia].
  rewrite fexp_eq in Hm'', He''.
  destruct (Z.eq_dec m1 0) as [Hz|Hnz].
  - (* rounded to zero *)
    left. split; [assumption|].
    rewrite Hm'', Hz. rewrite Z.div_0_l; [reflexivity|].
    apply Z.pow_nonzero; lia.
  - destruct (Z.eq_dec m1 (2 ^ 53)) as [Hc|Hnc].
    + (* carry: one more exact shift *)
      rewrite Hc in Hm'', He''.
      change (Zdigits2 (2 ^ 53)) with 54 in Hm'', He''.
      replace (Z.max 0 (Z.max (54 + t - 53) (-1074) - t)) with 1 in Hm'', He'' by lia.
      change (2 ^ 53 / 2 ^ 1) with (2 ^ 52) in Hm''.
      rewrite Hm''. change (2 ^ 52) with (Zpos (Z.to_pos (2 ^ 52))).
      cbv iota. subst e''.
      destruct (Z.leb_spec (t + 1) (emax - prec)) as [Hfin|Hinf].
      * right. left. exists (Z.to_pos (2 ^ 52)), (t + 1). split; [reflexivity|].
        rewrite Hc. replace (t + 1 + 1074) with (1 + (t + 1074)) by lia.
        rewrite Z.pow_add_r by lia. rewrite Z.mul_assoc. reflexivity.
      * right. right. split; [reflexivity|].
        rewrite Hc, <- Z.pow_add_r by lia. apply pow2_le.
        unfold emax, prec in Hinf. lia.
    + (* no carry: the mantissa is kept *)
      assert (Hpos : 0 < m1) by lia.
      assert (Hd1 : Zdigits2 m1 <= 53).
      { destruct (Zdigits2_bounds m1 Hpos) as [Hlo _].
        pose proof (Zdigits2_pos m1 Hpos).
        destruct (Z.le_gt_cases (Zdigits2 m1) 53) as [|Hgt]; [assumption|].
        exfalso. assert (2 ^ 53 <= 2 ^ (Zdigits2 m1 - 1)) by (apply pow2_le; lia).
        lia. }
      replace (Z.max 0 (Z.max (Zdigits2 m1 + t - 53) (-1074) - t)) with 0 in Hm'', He''
        by lia.
      change (2 ^ 0) with 1 in Hm''. rewrite Z.div_1_r in Hm''.
      rewrite Hm''. destruct m1 as [|p1|p1]; try lia.
      replace e'' with t by lia.
      destruct (Z.leb_spec t (emax - prec)) as [Hfin|Hinf].
      * right. left. exists p1, t. split; reflexivity.
      * right. right. split; [reflexivity|].
        unfold emax, prec in Hinf.
        specialize (Hq52 ltac:(lia)).
        apply Z.le_trans with (2 ^ 52 * 2 ^ (t + 1074)).
        { rewrite <- Z.pow_add_r by lia. apply pow2_le. lia. }
        apply Z.mul_le_mono_nonneg_r; lia.
Qed.

Lemma pos_iter_xO (m d : positive) :
  Zpos (Pos.iter xO m d) = Zpos m * 2 ^ Zpos d
  /\ Zpos (digits2_pos (Pos.iter xO m d)) = Zpos (digits2_pos m) + Zpos d.
Proof.
  induction d as [|d [IH1 IH2]] using Pos.peano_ind.
  - cbn [Pos.iter digits2_pos]. rewrite Pos2Z.inj_succ, Pos2Z.inj_xO. split; lia.
  - rewrite Pos.iter_succ. cbn [digits2_pos].
    rewrite Pos2Z.inj_xO, !Pos2Z.inj_succ, IH1, IH2, Z.pow_succ_r by lia. split; lia.
Qed.

Lemma shl_align_spec (m : positive) (e e' : Z) (mz : positive) (ez : Z) :
  shl_align m e e' = (mz, ez) ->
  ez = Z.min e e'
  /\ Zpos mz = Zpos m * 2 ^ (e - ez)
  /\ Zpos (digits2_pos mz) + ez = Zpos (digits2_pos m) + e.
Proof.
  unfold shl_align. destruct (e' - e) as [|p|p] eqn:E; intros H; injection H as <- <-.
  - replace (Z.min e e') with e by lia. rewrite Z.sub_diag. split; [|split]; lia.
  - replace (Z.min e e') with e by lia. rewrite Z.sub_diag. split; [|split]; lia.
  - replace (Z.min e e') with e' by lia.
    destruct (pos_iter_xO m p) as [H1 H2].
    replace (e - e') with (Zpos p) by lia. split; [|split]; lia.
Qed.

Lemma representable_lt_top (B : Z) : representable B -> 0 < B < 2 ^ 2098.
Proof.
  intros (mb & eb & Hv & ->).
  destruct (valid_magnitude _ _ _ Hv) as [[Hp Hu] _].
  destruct (valid_finite _ _ _ Hv) as (He & _).
  split; [assumption|]. eapply Z.lt_le_trans; [exact Hu|]. apply pow2_le. lia.
Qed.

Section RoundBounds.

Variables (mz : positive) (ez t : Z) (m1 : Z).
Hypothesis Hez : -1074 <= ez <= t.
Let n := t - ez.
Let q := Zpos mz / 2 ^ n.
Hypothesis Hq53 : q < 2 ^ 53.
Hypothesis Hq52 : -1074 < t -> 2 ^ 52 <= q.
Hypothesis Hm1 : q <= m1 <= q + 1.
Hypothesis Hexact : Zpos mz mod 2 ^ n = 0 -> m1 = q.

Let V := Zpos mz * 2 ^ (ez + 1074).
Let W := m1 * 2 ^ (t + 1074).

Lemma split_target : 2 ^ (t + 1074) = 2 ^ n * 2 ^ (ez + 1074).
Proof. unfold n. rewrite <- Z.pow_add_r by lia. f_equal. lia. Qed.

Lemma divmod_q : Zpos mz = q * 2 ^ n + Zpos mz mod 2 ^ n
                 /\ 0 <= Zpos mz mod 2 ^ n < 2 ^ n.
Proof.
  assert (Hn : 0 < 2 ^ n) by (apply pow2_pos; unfold n; lia).
  split; [|apply Z.mod_pos_bound; assumption].
  unfold q. rewrite Z.mul_comm. apply Z.div_mod. lia.
Qed.

(** A representable number below the target binade is below [2^(52+t)]. *)
Lemma below_binade (mb : positive) (eb : Z) :
  valid_binary (S754_finite false mb eb) = true -> eb < t ->
  -1074 < t /\ Zpos mb * 2 ^ (eb + 1074) < 2 ^ 52 * 2 ^ (t + 1074).
Proof.
  intros Hv Hlt.
  destruct (valid_magnitude _ _ _ Hv) as [[_ Hu] _].
  destruct (valid_finite _ _ _ Hv) as (He & _).
  split; [lia|]. eapply Z.lt_le_trans; [exact Hu|].
  rewrite <- Z.pow_add_r by lia. apply pow2_le. lia.
Qed.

Lemma normal_value_lower : -1074 < t -> 2 ^ 52 * 2 ^ (t + 1074) <= V.
Proof.
  intros Hgt. specialize (Hq52 Hgt).
  destruct divmod_q as [Hdm Hr].
  assert (Hn : 0 < 2 ^ n) by (apply pow2_pos; unfold n; lia).
  assert (Hp : 0 < 2 ^ (ez + 1074)) by (apply pow2_pos; lia).
  unfold V. rewrite split_target, Z.mul_assoc.
  apply Z.mul_le_mono_nonneg_r; [lia|].
  apply Z.le_trans with (q * 2 ^ n); [|lia].
  apply Z.mul_le_mono_nonneg_r; lia.
Qed.

Lemma round_upper (B : Z) : representable B -> V <= B -> W <= B.
Proof.
  intros (mb & eb & Hv & ->) HVB.
  assert (Hn : 0 < 2 ^ n) by (apply pow2_pos; unfold n; lia).
  assert (Hp : 0 < 2 ^ (ez + 1074)) by (apply pow2_pos; lia).
  destruct (valid_finite _ _ _ Hv) as (He & _).
  destruct (Z.lt_ge_cases eb t) as [Hlt|Hge].
  { destruct (below_binade mb eb Hv Hlt) as [Hgt HB].
    pose proof (normal_value_lower Hgt). lia. }
  set (beta := Zpos mb * 2 ^ (eb - t)).
  assert (HB : Zpos mb * 2 ^ (eb + 1074) = beta * 2 ^ (t + 1074)).
  { unfold beta. rewrite <- Z.mul_assoc, <- Z.pow_add_r by lia. do 2 f_equal. lia. }
  rewrite HB in *. unfold W.
  apply Z.mul_le_mono_nonneg_r; [apply Z.lt_le_incl, pow2_pos; lia|].
  unfold V in HVB. rewrite split_target, Z.mul_assoc in HVB.
  apply Z.mul_le_mono_pos_r in HVB; [|assumption].
  destruct divmod_q as [Hdm Hr].
  destruct (Z.eq_dec (Zpos mz mod 2 ^ n) 0) as [Hz|Hnz].
  - rewrite (Hexact Hz). rewrite Hz in Hdm.
    apply Z.mul_le_mono_pos_r with (p := 2 ^ n); lia.
  - assert (q < beta); [|lia].
    apply Z.mul_lt_mono_pos_r with (p := 2 ^ n); lia.
Qed.

Lemma round_lower (B : Z) : representable B -> B <= V -> B <= W.
Proof.
  intros (mb & eb & Hv & ->) HVB.
  assert (Hn : 0 < 2 ^ n) by (apply pow2_pos; unfold n; lia).
  assert (Hp : 0 < 2 ^ (ez + 1074)) by (apply pow2_pos; lia).
  assert (Hpt : 0 < 2 ^ (t + 1074)) by (apply pow2_pos; lia).
  destruct (valid_finite _ _ _ Hv) as (He & _).
  destruct (Z.lt_ge_cases eb t) as [Hlt|Hge].
  { destruct (below_binade mb eb Hv Hlt) as [Hgt HB].
    specialize (Hq52 Hgt). unfold W.
    apply Z.le_trans with (2 ^ 52 * 2 ^ (t + 1074)); [lia|].
    apply Z.mul_le_mono_nonneg_r; lia. }
  set (beta := Zpos mb * 2 ^ (eb - t)).
  assert (HB : Zpos mb * 2 ^ (eb + 1074) = beta * 2 ^ (t + 1074)).
  { unfold beta. rewrite <- Z.mul_assoc, <- Z.pow_add_r by lia. do 2 f_equal. lia. }
  rewrite HB in *. unfold W.
  apply Z.mul_le_mono_nonneg_r; [lia|].
  unfold V in HVB. rewrite split_target, Z.mul_assoc in HVB.
  apply Z.mul_le_mono_pos_r in HVB; [|assumption].
  destruct divmod_q as [Hdm Hr].
  assert (beta < q + 1); [|lia].
  apply Z.mul_lt_mono_pos_r with (p := 2 ^ n); lia.
Qed.

End RoundBounds.

(** [binary_round_aux] never returns NaN and keeps the sign it is given. *)
Lemma binary_round_aux_shape (s : bool) (m : positive) (e : Z) :
  let r := binary_round_aux prec emax s (Zpos m) e loc_Exact in
  r = S754_zero s \/ (exists m2 e2, r = S754_finite s m2 e2) \/ r = S754_infinity s.
Proof.
  cbn zeta. unfold binary_round_aux, shr_fexp. cbn [shr_record_of_loc].
  destruct (shr (Build_shr_record (Zpos m) false false) e
              (fexp prec emax (Zdigits2 (Zpos m) + e) - e)) as [mrs' e'] eqn:E1.
  apply shr_exact_spec in E1 as (Hm' & _ & _); [|lia].
  assert (Hq : 0 <= shr_m mrs').
  { rewrite Hm'. apply Z.div_pos; [lia | apply pow2_pos; lia]. }
  destruct (rne_bounds (shr_m mrs') mrs' eq_refl) as [Hm1 _].
  set (m1 := round_nearest_even (shr_m mrs') (loc_of_shr_record mrs')) in *.
  destruct (shr (Build_shr_record m1 false false) e'
              (fexp prec emax (Zdigits2 m1 + e') - e')) as [mrs'' e''] eqn:E2.
  apply shr_exact_spec in E2 as (Hm'' & _ & _); [|lia].
  assert (Hq' : 0 <= shr_m mrs'').
  { rewrite Hm''. apply Z.div_pos; [lia | apply pow2_pos; lia]. }
  destruct (shr_m mrs'') as [|p|p]; [now left | | lia].
  destruct (e'' <=? emax - prec); [right; left; eauto | now right; right].
Qed.

Lemma binary_round_bounds (s : bool) (m : positive) (e : Z) :
  -1074 <= e ->
  let V := Zpos m * 2 ^ (e + 1074) in
  let r := binary_round prec emax s m e in
  sf_not_nan r = true
  /\ exists W, 0 <= W /\ ext r = cond_Zopp s W
       /\ forall B, representable B -> (V <= B -> W <= B) /\ (B <= V -> B <= W).
Proof.
  intros He. cbn zeta. unfold binary_round. rewrite fexp_eq.
  set (t := Z.max (Zpos (digits2_pos m) + e - 53) (-1074)).
  destruct (shl_align m e t) as [mz ez] eqn:E.
  apply shl_align_spec in E as (Hez & Hmz & Hdz).
  assert (Ht : t = Z.max (Zpos (digits2_pos mz) + ez - 53) (-1074)).
  { unfold t. f_equal. lia. }
  assert (Hle : -1074 <= ez <= t) by lia.
  assert (HV : Zpos m * 2 ^ (e + 1074) = Zpos mz * 2 ^ (ez + 1074)).
  { rewrite Hmz, <- Z.mul_assoc, <- Z.pow_add_r by lia. do 2 f_equal. lia. }
  rewrite HV.
  destruct (quotient_bounds mz ez t Ht (proj2 Hle)) as [Hq53 Hq52].
  destruct (binary_round_aux_value s mz ez t Ht (proj2 Hle)) as (m1 & Hm1 & Hex & Hr).
  cbn zeta in Hr.
  assert (Hq0 : 0 <= Zpos mz / 2 ^ (t - ez))
    by (apply Z.div_pos; [lia | apply pow2_pos; lia]).
  assert (Hpt : 0 < 2 ^ (t + 1074)) by (apply pow2_pos; lia).
  pose proof (round_upper mz ez t m1 Hle Hq52 Hm1 Hex) as Hup.
  pose proof (round_lower mz ez t m1 Hle Hq52 Hm1) as Hlo.
  destruct Hr as [[Hz ->]|[(m2 & e2 & -> & Hval)|[-> Hinf]]].
  - split; [reflexivity|]. exists (m1 * 2 ^ (t + 1074)).
    split; [apply Z.mul_nonneg_nonneg; lia|].
    split; [rewrite Hz; now destruct s|].
    intros B HB. split; [apply Hup | apply Hlo]; assumption.
  - split; [reflexivity|]. exists (m1 * 2 ^ (t + 1074)).
    split; [apply Z.mul_nonneg_nonneg; lia|].
    split; [cbn [ext]; now rewrite Hval|].
    intros B HB. split; [apply Hup | apply Hlo]; assumption.
  - split; [reflexivity|]. exists (2 ^ 2100).
    split; [apply Z.lt_le_incl, pow2_pos; lia|].
    split; [reflexivity|].
    intros B HB. pose proof (representable_lt_top B HB) as [_ Htop].
    assert (2 ^ 2098 < 2 ^ 2100) by (apply pow2_lt; lia).
    split; [|lia].
    intros HVB. specialize (Hup B HB HVB). lia.
Qed.

Lemma binary_normalize_bounds (M e : Z) (sz : bool) :
  -1074 <= e ->
  let V := M * 2 ^ (e + 1074) in
  let r := binary_normalize prec emax M e sz in
  sf_not_nan r = true
  /\ forall B, srep B -> (V <= B -> ext r <= B) /\ (B <= V -> B <= ext r).
Proof.
  intros He. cbn zeta.
  assert (Hp : 0 < 2 ^ (e + 1074)) by (apply pow2_pos; lia).
  destruct M as [|p|p]; cbn [binary_normalize].
  - split; [reflexivity|]. intros B _. cbn [ext]. lia.
  - destruct (binary_round_bounds false p e He) as (Hn & W & HW & -> & Hb).
    split; [assumption|]. cbn [cond_Zopp].
    assert (0 < Zpos p * 2 ^ (e + 1074)) by (apply Z.mul_pos_pos; lia).
    intros B [->|[HB|HB]].
    + split; lia.
    + apply Hb, HB.
    + pose proof (representable_lt_top _ HB). split; lia.
  - destruct (binary_round_bounds true p e He) as (Hn & W & HW & -> & Hb).
    split; [assumption|]. cbn [cond_Zopp].
    assert (0 < Zpos p * 2 ^ (e + 1074)) by (apply Z.mul_pos_pos; lia).
    replace (Zneg p * 2 ^ (e + 1074)) with (- (Zpos p * 2 ^ (e + 1074))) by lia.
    intros B [->|[HB|HB]].
    + split; lia.
    + pose proof (representable_lt_top _ HB). split; lia.
    + destruct (Hb _ HB) as [Hu Hl]. split; lia.
Qed.

Lemma srep_ext (x : spec_float) :
  valid_binary x = true -> sf_finite x = true -> srep (ext x).
Proof.
  destruct x as [s|s| |s m e]; try discriminate; intros Hv _.
  - now left.
  - right. destruct s; cbn [ext cond_Zopp].
    + right. rewrite Z.opp_involutive. now exists m, e.
    + left. now exists m, e.
Qed.

Lemma aligned_value (s : bool) (m : positive) (e ez : Z) :
  -1074 <= ez <= e ->
  cond_Zopp s (Zpos (fst (shl_align m e ez))) * 2 ^ (ez + 1074)
  = cond_Zopp s (Zpos m * 2 ^ (e + 1074)).
Proof.
  intros H. destruct (shl_align m e ez) as [mz ez'] eqn:E.
  apply shl_align_spec in E as (-> & Hm & _). cbn [fst].
  replace (Z.min e ez) with ez in Hm by lia.
  assert (Zpos mz * 2 ^ (ez + 1074) = Zpos m * 2 ^ (e + 1074)).
  { rewrite Hm, <- Z.mul_assoc, <- Z.pow_add_r by lia. do 2 f_equal. lia. }
  destruct s; cbn [cond_Zopp]; lia.
Qed.

(** Subtraction of finite_float numbers: the exact difference, rounded without
    crossing any number of binary64. *)
Lemma SFsub_bounds (x y : spec_float) :
  valid_binary x = true -> valid_binary y = true ->
  sf_finite x = true -> sf_finite y = true ->
  let r := SFsub prec emax x y in
  sf_not_nan r = true
  /\ forall B, srep B ->
       (ext x - ext y <= B -> ext r <= B) /\ (B <= ext x - ext y -> B <= ext r).
Proof.
  intros Hx Hy Fx Fy. cbn zeta.
  destruct x as [sx|sx| |sx mx ex], y as [sy|sy| |sy my ey]; try discriminate.
  - split; [now destruct sx, sy|]. intros B _. destruct sx, sy; cbn [SFsub ext]; lia.
  - split; [reflexivity|]. intros B _. cbn [SFsub ext].
    destruct sy; cbn [negb cond_Zopp]; lia.
  - split; [reflexivity|]. intros B _. cbn [SFsub ext]. lia.
  - cbn [SFsub ext].
    destruct (valid_finite _ _ _ Hx) as (Hex & _).
    destruct (valid_finite _ _ _ Hy) as (Hey & _).
    set (ez := Z.min ex ey).
    destruct (binary_normalize_bounds
                (cond_Zopp sx (Zpos (fst (shl_align mx ex ez)))
                 - cond_Zopp sy (Zpos (fst (shl_align my ey ez)))) ez false)
      as [Hn Hb]; [lia|].
    split; [exact Hn|].
    rewrite Z.mul_sub_distr_r, !aligned_value in Hb by lia. exact Hb.
Qed.

Lemma SFadd_bounds (x y : spec_float) :
  valid_binary x = true -> valid_binary y = true ->
  sf_finite x = true -> sf_finite y = true ->
  let r := SFadd prec emax x y in
  sf_not_nan r = true
  /\ forall B, srep B ->
       (ext x + ext y <= B -> ext r <= B) /\ (B <= ext x + ext y -> B <= ext r).
Proof.
  intros Hx Hy Fx Fy. cbn zeta.
  destruct x as [sx|sx| |sx mx ex], y as [sy|sy| |sy my ey]; try discriminate.
  - split; [now destruct sx, sy|]. intros B _. destruct sx, sy; cbn [SFadd ext]; lia.
  - split; [reflexivity|]. intros B _. cbn [SFadd ext]. lia.
  - split; [reflexivity|]. intros B _. cbn [SFadd ext]. lia.
  - cbn [SFadd ext].
    destruct (valid_finite _ _ _ Hx) as (Hex & _).
    destruct (valid_finite _ _ _ Hy) as (Hey & _).
    set (ez := Z.min ex ey).
    destruct (binary_normalize_bounds
                (cond_Zopp sx (Zpos (fst (shl_align mx ex ez)))
                 + cond_Zopp sy (Zpos (fst (shl_align my ey ez)))) ez false)
      as [Hn Hb]; [lia|].
    split; [exact Hn|].
    rewrite Z.mul_add_distr_r, !aligned_value in Hb by lia. exact Hb.
Qed.

(** Adding or subtracting a finite_float number never produces NaN from a number. *)
Lemma SFadd_not_nan (x y : spec_float) :
  valid_binary x = true -> valid_binary y = true ->
  sf_not_nan x = true -> sf_finite y = true ->
  sf_not_nan (SFadd prec emax x y) = true.
Proof.
  intros Hx Hy Nx Fy.
  destruct (sf_finite x) eqn:Fx; [now apply SFadd_bounds|].
  destruct x as [sx|sx| |sx mx ex]; try discriminate.
  destruct y as [sy|sy| |sy my ey]; try discriminate; reflexivity.
Qed.

Lemma SFsub_not_nan (x y : spec_float) :
  valid_binary x = true -> valid_binary y = true ->
  sf_not_nan x = true -> sf_finite y = true ->
  sf_not_nan (SFsub prec emax x y) = true.
Proof.
  intros Hx Hy Nx Fy.
  destruct (sf_finite x) eqn:Fx; [now apply SFsub_bounds|].
  destruct x as [sx|sx| |sx mx ex]; try discriminate.
  destruct y as [sy|sy| |sy my ey]; try discriminate; reflexivity.
Qed.

(** A product of non-negative numbers, the first finite_float and not zero, is
    a non-negative number. *)
Lemma SFmul_nonneg (mx : positive) (ex : Z) (y : spec_float) :
  valid_binary y = true -> sf_finite y = true -> 0 <= ext y ->
  let r := SFmul prec emax (S754_finite false mx ex) y in
  sf_not_nan r = true /\ 0 <= ext r.
Proof.
  intros Vy Fy Hy. cbn zeta.
  destruct y as [sy|sy| |sy my ey]; try discriminate; cbn [SFmul].
  - split; [reflexivity | cbn [ext]; lia].
  - destruct sy.
    + exfalso. cbn [ext cond_Zopp] in Hy.
      pose proof (ext_finite_bound _ _ _ Vy). lia.
    + cbn [xorb].
      destruct (binary_round_aux_shape false (mx * my) (ex + ey))
        as [->|[(m2 & e2 & ->)| ->]].
      * split; [reflexivity | cbn [ext]; lia].
      * split; [reflexivity|]. cbn [ext cond_Zopp].
        apply Z.mul_nonneg_nonneg; [lia | apply Z.pow_nonneg; lia].
      * split; [reflexivity|]. cbn [ext cond_Zopp]. apply Z.pow_nonneg. lia.
Qed.

Lemma finite_not_nan (x : float) : finite_float x = true -> not_nan x = true.
Proof. unfold finite_float, not_nan. now destruct (Prim2SF x). Qed.

Lemma ltb_fval (x y : float) :
  not_nan x = true -> not_nan y = true ->
  PrimFloat.ltb x y = (fval x <? fval y).
Proof.
  intros Nx Ny. rewrite ltb_spec. unfold SFltb.
  rewrite (SFcompare_ext _ _ (Prim2SF_valid x) (Prim2SF_valid y) Nx Ny).
  unfold fval, Z.ltb. now destruct (ext (Prim2SF x) ?= ext (Prim2SF y)).
Qed.

Lemma leb_fval (x y : float) :
  not_nan x = true -> not_nan y = true ->
  PrimFloat.leb x y = (fval x <=? fval y).
Proof.
  intros Nx Ny. rewrite leb_spec. unfold SFleb.
  rewrite (SFcompare_ext _ _ (Prim2SF_valid x) (Prim2SF_valid y) Nx Ny).
  unfold fval, Z.leb. now destruct (ext (Prim2SF x) ?= ext (Prim2SF y)).
Qed.

Lemma leb_not_nan (x y : float) :
  PrimFloat.leb x y = true -> not_nan x = true /\ not_nan y = true.
Proof.
  rewrite leb_spec. unfold SFleb, not_nan.
  destruct (Prim2SF x), (Prim2SF y); cbn; intros H; try discriminate; now split.
Qed.

Lemma ltb_not_nan (x y : float) :
  PrimFloat.ltb x y = true -> not_nan x = true /\ not_nan y = true.
Proof.
  rewrite ltb_spec. unfold SFltb, not_nan.
  destruct (Prim2SF x), (Prim2SF y); cbn; intros H; try discriminate; now split.
Qed.

Lemma add_not_nan (x c : float) :
  not_nan x = true -> finite_float c = true -> not_nan (x + c) = true.
Proof.
  unfold not_nan, finite_float. intros Nx Fc. rewrite add_spec.
  apply SFadd_not_nan; auto using Prim2SF_valid.
Qed.

Lemma sub_not_nan (x c : float) :
  not_nan x = true -> finite_float c = true -> not_nan (x - c) = true.
Proof.
  unfold not_nan, finite_float. intros Nx Fc. rewrite sub_spec.
  apply SFsub_not_nan; auto using Prim2SF_valid.
Qed.

(** A number whose value is not that of an infinity is finite. *)
Lemma finite_of_bound (x : float) :
  not_nan x = true -> - 2 ^ 2100 < fval x < 2 ^ 2100 -> finite_float x = true.
Proof.
  unfold not_nan, finite_float, fval.
  destruct (Prim2SF x) as [s|s| |s m e]; try discriminate; try reflexivity.
  destruct s; cbn [ext cond_Zopp]; lia.
Qed.

Lemma fval_finite_bound (x : float) :
  finite_float x = true -> - 2 ^ 2100 < fval x < 2 ^ 2100.
Proof.
  unfold finite_float, fval. pose proof (Prim2SF_valid x) as Hv.
  assert (0 < 2 ^ 2100) by (apply pow2_pos; lia).
  destruct (Prim2SF x) as [s|s| |s m e]; try discriminate; intros _; cbn [ext]; [lia|].
  pose proof (ext_finite_bound _ _ _ Hv). destruct s; cbn [cond_Zopp]; lia.
Qed.

Lemma srep_fval (x : float) : finite_float x = true -> srep (fval x).
Proof. intros F. apply srep_ext; [apply Prim2SF_valid | exact F]. Qed.

(** [x - y] lies between any two numbers of binary64 that bracket the exact
    difference. *)
Lemma sub_between (x y lo hi : float) :
  finite_float x = true -> finite_float y = true -> finite_float lo = true -> finite_float hi = true ->
  fval lo <= fval x - fval y <= fval hi ->
  finite_float (x - y) = true /\ fval lo <= fval (x - y) <= fval hi.
Proof.
  intros Fx Fy Flo Fhi [Hlo Hhi].
  destruct (SFsub_bounds (Prim2SF x) (Prim2SF y)
              (Prim2SF_valid x) (Prim2SF_valid y) Fx Fy) as [Hn Hb].
  cbn zeta in Hn, Hb. rewrite <- sub_spec in Hn, Hb.
  destruct (Hb _ (srep_fval lo Flo)) as [_ H1].
  destruct (Hb _ (srep_fval hi Fhi)) as [H2 _].
  specialize (H1 Hlo). specialize (H2 Hhi). fold (fval (x - y)) in H1, H2.
  pose proof (fval_finite_bound lo Flo). pose proof (fval_finite_bound hi Fhi).
  split; [apply finite_of_bound; [exact Hn | lia] | lia].
Qed.

Lemma fval_abs (x : float) : fval (abs x) = Z.abs (fval x).
Proof.
  unfold fval. rewrite abs_spec.
  destruct (Prim2SF x) as [s|s| |s m e]; cbn [SFabs ext cond_Zopp]; try reflexivity.
  - assert (0 < 2 ^ 2100) by (apply pow2_pos; lia). destruct s; cbn [cond_Zopp]; lia.
  - pose proof (Prim2SF_valid x) as Hv.
    assert (0 <= Zpos m * 2 ^ (e + 1074))
      by (apply Z.mul_nonneg_nonneg; [lia | apply Z.pow_nonneg; lia]).
    destruct s; cbn [cond_Zopp]; lia.
Qed.

Lemma finite_abs (x : float) : finite_float (abs x) = finite_float x.
Proof. unfold finite_float. rewrite abs_spec. now destruct (Prim2SF x). Qed.

Lemma half_mul_nonneg (c : float) :
  finite_float c = true -> 0 <= fval c ->
  not_nan (0.5 * c) = true /\ 0 <= fval (0.5 * c).
Proof.
  intros Fc Hc. unfold not_nan, fval. rewrite mul_spec.
  change (Prim2SF 0.5) with (S754_finite false 4503599627370496 (-53)).
  apply SFmul_nonneg; [apply Prim2SF_valid | exact Fc | exact Hc].
Qed.

(** On a popularity between 0 and 1 the balanced contribution is a number
    that is not negative. *)
Lemma balanced_term_nonneg (pop : float) :
  PrimFloat.leb 0 pop = true -> PrimFloat.leb pop 1 = true ->
  PrimFloat.leb 0 (balanced_term pop) = true.
Proof.
  intros H0 H1.
  destruct (leb_not_nan _ _ H0) as [N0 Np].
  destruct (leb_not_nan _ _ H1) as [_ N1].
  rewrite leb_fval in H0, H1 by assumption.
  apply Z.leb_le in H0, H1.
  change (fval 0) with 0 in H0.
  assert (F1 : finite_float 1 = true) by reflexivity.
  assert (Fp : finite_float pop = true).
  { apply finite_of_bound; [assumption|].
    pose proof (fval_finite_bound 1 F1). lia. }
  assert (F6 : finite_float 0.6 = true) by reflexivity.
  assert (Fm6 : finite_float (-0.6) = true) by reflexivity.
  assert (Fz : finite_float 0 = true) by reflexivity.
  assert (Hm6 : fval (-0.6) = - fval 0.6) by reflexivity.
  assert (H16 : fval 1 - fval 0.6 <= fval 0.6) by (vm_compute; discriminate).
  assert (H6 : 0 <= fval 0.6) by (vm_compute; discriminate).
  (* a = pop - 0.6 lies in [-0.6, 0.6] *)
  destruct (sub_between pop 0.6 (-0.6) 0.6 Fp F6 Fm6 F6) as [Fa Ha]; [lia|].
  (* b = |a| lies in [0, 0.6] *)
  pose proof (fval_abs (pop - 0.6)) as Hb.
  assert (Fb : finite_float (abs (pop - 0.6)) = true) by now rewrite finite_abs.
  (* c = 0.6 - b lies in [0, 0.6] *)
  destruct (sub_between 0.6 (abs (pop - 0.6)) 0 0.6 F6 Fb Fz F6) as [Fc Hc].
  { change (fval 0) with 0. lia. }
  change (fval 0) with 0 in Hc.
  (* 0.5 * c *)
  destruct (half_mul_nonneg _ Fc (proj1 Hc)) as [Nt Ht].
  unfold balanced_term. rewrite leb_fval by (assumption || reflexivity).
  apply Z.leb_le. exact Ht.
Qed.

(* ---------- rhe_div ---------- *)

Lemma rhe_div_bounds (a b : Z) : a / b <= rhe_div a b <= a / b + 1.
Proof.
  unfold rhe_div. destruct (2 * (a mod b) ?= b); [destruct (Z.even (a / b))| |]; lia.
Qed.

Lemma rhe_div_exact (k b : Z) : 0 < b -> rhe_div (k * b) b = k.
Proof.
  intros Hb. unfold rhe_div. rewrite Z.mod_mul, Z.div_mul by lia.
  change (2 * 0) with 0. now destruct (Z.compare_spec 0 b); try lia.
Qed.

Lemma rhe_div_mono (a a' b : Z) : 0 < b -> a <= a' -> rhe_div a b <= rhe_div a' b.
Proof.
  intros Hb Ha.
  pose proof (Z.div_le_mono a a' b Hb Ha) as Hq.
  destruct (Z.eq_dec (a / b) (a' / b)) as [E|N].
  - assert (Hr : a mod b <= a' mod b).
    { rewrite !Z.mod_eq by lia. rewrite E. lia. }
    unfold rhe_div. rewrite <- E.
    destruct (Z.compare_spec (2 * (a mod b)) b), (Z.compare_spec (2 * (a' mod b)) b);
      destruct (Z.even (a / b)); lia.
  - pose proof (rhe_div_bounds a b). pose proof (rhe_div_bounds a' b). lia.
Qed.

Lemma compare_scale (x y k : Z) : 0 < k -> (x * k ?= y * k) = (x ?= y).
Proof.
  intros Hk. destruct (Z.compare_spec x y) as [->|H|H].
  - apply Z.compare_refl.
  - apply Z.compare_lt_iff. nia.
  - apply Z.compare_gt_iff. nia.
Qed.

Lemma rhe_div_scale (a b k : Z) :
  0 < b -> 0 < k -> rhe_div (a * k) (b * k) = rhe_div a b.
Proof.
  intros Hb Hk. unfold rhe_div.
  rewrite Z.div_mul_cancel_r, Z.mul_mod_distr_r by lia.
  replace (2 * (a mod b * k)) with (2 * (a mod b) * k) by lia.
  rewrite compare_scale by lia. reflexivity.
Qed.

Lemma rhe_div_nonneg (a b : Z) : 0 < b -> 0 <= a -> 0 <= rhe_div a b.
Proof.
  intros Hb Ha. pose proof (rhe_div_bounds a b).
  pose proof (Z.div_pos a b Ha Hb). lia.
Qed.

(* ---------- binade ---------- *)

Lemma binade_spec (n : Z) :
  0 < n < 2 ^ 60 ->
  let E := binade n in
  -10 <= E <= 50
  /\ 1000 * 2 ^ 52 <= n * 2 ^ (52 - E) < 1000 * 2 ^ 53.
Proof.
  intros Hn. cbn zeta. unfold binade.
  destruct (Z.log2_spec n (proj1 Hn)) as [Hlo Hhi].
  assert (HL : 0 <= Z.log2 n) by apply Z.log2_nonneg.
  assert (HL59 : Z.log2 n <= 59).
  { destruct (Z.le_gt_cases (Z.log2 n) 59); [assumption|].
    assert (2 ^ 60 <= 2 ^ Z.log2 n) by (apply pow2_le; lia). lia. }
  set (L := Z.log2 n) in *. set (l := L - 9).
  assert (Hsucc : 2 ^ Z.succ L = 2 * 2 ^ L) by (apply Z.pow_succ_r; lia).
  assert (H62 : 2 ^ L * 2 ^ (52 - l) = 2 ^ 61).
  { rewrite <- Z.pow_add_r by (unfold l; lia). f_equal. unfold l. lia. }
  assert (Hpl : 0 < 2 ^ (52 - l)) by (apply pow2_pos; unfold l; lia).
  assert (Hstep : 2 ^ (52 - (l - 1)) = 2 * 2 ^ (52 - l)).
  { replace (52 - (l - 1)) with (Z.succ (52 - l)) by lia.
    apply Z.pow_succ_r. unfold l. lia. }
  assert (C1 : 1000 * 2 ^ 52 <= 2 ^ 62) by (vm_compute; discriminate).
  assert (C2 : 2 ^ 62 <= 1000 * 2 ^ 53) by (vm_compute; discriminate).
  assert (C3 : 2 ^ 62 = 2 * 2 ^ 61) by reflexivity.
  assert (Hup : n * 2 ^ (52 - l) < 2 ^ 62).
  { rewrite C3, <- H62. nia. }
  assert (Hdn : 2 ^ 61 <= n * 2 ^ (52 - l)).
  { rewrite <- H62. nia. }
  assert (Htest : thousand_pow_le l n = true <-> 1000 * 2 ^ 52 <= n * 2 ^ (52 - l)).
  { unfold thousand_pow_le. destruct (Z.leb_spec 0 l) as [Hl|Hl].
    - rewrite Z.leb_le.
      assert (E52 : 2 ^ 52 = 2 ^ l * 2 ^ (52 - l)).
      { rewrite <- Z.pow_add_r by (unfold l in *; lia). f_equal. lia. }
      rewrite E52. assert (0 < 2 ^ l) by (apply pow2_pos; lia). nia.
    - rewrite Z.leb_le.
      assert (E52 : 2 ^ (52 - l) = 2 ^ (- l) * 2 ^ 52).
      { rewrite <- Z.pow_add_r by lia. f_equal. lia. }
      rewrite E52. assert (0 < 2 ^ (- l)) by (apply pow2_pos; lia).
      assert (0 < 2 ^ 52) by (apply pow2_pos; lia). nia. }
  destruct (thousand_pow_le l n) eqn:T.
  - apply proj1 in Htest. specialize (Htest eq_refl).
    split; [unfold l; lia | lia].
  - assert (Hno : ~ 1000 * 2 ^ 52 <= n * 2 ^ (52 - l)).
    { intros H. apply Htest in H. discriminate. }
    split; [unfold l; lia|]. rewrite Hstep. lia.
Qed.

Lemma binade_mono (n n' : Z) :
  0 < n -> n <= n' -> n' < 2 ^ 60 -> binade n <= binade n'.
Proof.
  intros H0 Hle Hhi.
  destruct (binade_spec n ltac:(lia)) as [HE [Hlo _]].
  destruct (binade_spec n' ltac:(lia)) as [HE' [_ Hup']].
  destruct (Z.le_gt_cases (binade n) (binade n')) as [|Hgt]; [assumption|exfalso].
  set (E := binade n) in *. set (E' := binade n') in *.
  assert (Hsp : 2 ^ (52 - E') = 2 ^ (E - E') * 2 ^ (52 - E)).
  { rewrite <- Z.pow_add_r by lia. f_equal. lia. }
  assert (H2 : 2 <= 2 ^ (E - E')).
  { change 2 with (2 ^ 1) at 1. apply pow2_le. lia. }
  assert (0 < 2 ^ (52 - E)) by (apply pow2_pos; lia).
  assert (0 < 2 ^ (52 - E')) by (apply pow2_pos; lia).
  assert (n * 2 ^ (52 - E') <= n' * 2 ^ (52 - E')) by nia.
  rewrite Hsp in *. nia.
Qed.

Lemma mantissa_range (n : Z) :
  0 < n < 2 ^ 60 ->
  2 ^ 52 <= rhe_div (n * 2 ^ (52 - binade n)) 1000 <= 2 ^ 53.
Proof.
  intros Hn. destruct (binade_spec n Hn) as [_ [Hlo Hhi]].
  split.
  - apply Z.le_trans with (rhe_div (2 ^ 52 * 1000) 1000).
    + rewrite rhe_div_exact; lia.
    + apply rhe_div_mono; lia.
  - apply Z.le_trans with (rhe_div (2 ^ 53 * 1000) 1000).
    + apply rhe_div_mono; lia.
    + rewrite rhe_div_exact; lia.
Qed.

Lemma digits2_of_range (p : positive) :
  2 ^ 52 <= Zpos p < 2 ^ 53 -> Zpos (digits2_pos p) = 53.
Proof.
  intros [Hlo Hhi]. pose proof (digits2_bounds p) as [Dlo Dhi].
  set (d := Zpos (digits2_pos p)) in *.
  assert (0 < d) by (unfold d; lia).
  destruct (Z.lt_trichotomy d 53) as [Hlt|[E|Hgt]]; [exfalso|assumption|exfalso].
  - assert (2 ^ d <= 2 ^ 52) by (apply pow2_le; lia). lia.
  - assert (2 ^ 53 <= 2 ^ (d - 1)) by (apply pow2_le; lia). lia.
Qed.

Lemma valid_of_digits (s : bool) (p : positive) (e : Z) :
  Zpos (digits2_pos p) = 53 -> -1074 <= e <= 971 ->
  valid_binary (S754_finite s p e) = true.
Proof.
  intros Hd He. unfold valid_binary, bounded, canonical_mantissa.
  rewrite fexp_eq, Hd. apply andb_true_intro. split.
  - apply Z.eqb_eq. lia.
  - apply Z.leb_le. unfold emax, prec. lia.
Qed.

Lemma nearest_thousandth_spec (s : bool) (n : Z) :
  0 < n < 2 ^ 60 ->
  valid_binary (nearest_thousandth s n) = true
  /\ ext (nearest_thousandth s n)
     = cond_Zopp s (rhe_div (n * 2 ^ (52 - binade n)) 1000 * 2 ^ (binade n + 1022)).
Proof.
  intros Hn. destruct (binade_spec n Hn) as [HE _].
  pose proof (mantissa_range n Hn) as HM.
  unfold nearest_thousandth.
  set (E := binade n) in *. set (M := rhe_div (n * 2 ^ (52 - E)) 1000) in *.
  destruct (Z.eqb_spec M (2 ^ 53)) as [Hc|Hnc].
  - split.
    + apply valid_of_digits; [reflexivity | lia].
    + cbn [ext]. f_equal. rewrite Hc.
      change (Zpos (Z.to_pos (2 ^ 52))) with (2 ^ 52).
      rewrite <- !Z.pow_add_r by lia. f_equal. lia.
  - assert (HMpos : 0 < M) by (assert (0 < 2 ^ 52) by (apply pow2_pos; lia); lia).
    assert (Hid : Zpos (Z.to_pos M) = M) by (apply Z2Pos.id; assumption).
    split.
    + apply valid_of_digits; [|lia].
      apply digits2_of_range. rewrite Hid. lia.
    + cbn [ext]. rewrite Hid.
      replace (E - 52 + 1074) with (E + 1022) by lia. reflexivity.
Qed.

(* ---------- the value-level rounding is monotone ---------- *)

Lemma thousandth_value_mono (n n' : Z) : 0 < n -> n <= n' -> n' < 2 ^ 60 -> thousandth_value n <= thousandth_value n'.
Proof.
  intros H0 Hle Hhi. unfold thousandth_value.
  pose proof (binade_mono n n' H0 Hle Hhi) as HEE.
  destruct (binade_spec n ltac:(lia)) as [HE _].
  destruct (binade_spec n' ltac:(lia)) as [HE' _].
  pose proof (mantissa_range n ltac:(lia)) as HM.
  pose proof (mantissa_range n' ltac:(lia)) as HM'.
  set (E := binade n) in *. set (E' := binade n') in *.
  destruct (Z.eq_dec E E') as [Heq|Hne].
  - rewrite <- Heq.
    apply Z.mul_le_mono_nonneg_r; [apply Z.pow_nonneg; lia|].
    apply rhe_div_mono; [lia|].
    apply Z.mul_le_mono_nonneg_r; [apply Z.pow_nonneg; lia | assumption].
  - assert (P : 0 < 2 ^ (E + 1022)) by (apply pow2_pos; lia).
    assert (P' : 0 < 2 ^ (E' + 1022)) by (apply pow2_pos; lia).
    apply Z.le_trans with (2 ^ 53 * 2 ^ (E + 1022)).
    { apply Z.mul_le_mono_nonneg_r; lia. }
    apply Z.le_trans with (2 ^ 52 * 2 ^ (E' + 1022)).
    { rewrite <- !Z.pow_add_r by lia. apply pow2_le. lia. }
    apply Z.mul_le_mono_nonneg_r; lia.
Qed.

Lemma thousandth_value_top (n : Z) : 0 < n <= 1000 * 2 ^ 49 -> 0 <= thousandth_value n <= 2 ^ 1123.
Proof.
  intros Hn.
  assert (H60 : 0 < n < 2 ^ 60).
  { split; [lia|]. assert (1000 * 2 ^ 49 < 2 ^ 60) by (vm_compute; reflexivity). lia. }
  destruct (binade_spec n H60) as [HE [Hlo Hhi]].
  pose proof (mantissa_range n H60) as HM.
  unfold thousandth_value. set (E := binade n) in *.
  assert (P : 0 < 2 ^ (E + 1022)) by (apply pow2_pos; lia).
  assert (P52 : 0 < 2 ^ 52) by (apply pow2_pos; lia).
  split; [apply Z.mul_nonneg_nonneg; lia|].
  assert (HE49 : E <= 49).
  { destruct (Z.le_gt_cases E 49) as [|Hgt]; [assumption|exfalso].
    assert (2 ^ (52 - E) <= 2 ^ 2) by (apply pow2_le; lia).
    assert (1000 * 2 ^ 49 * 2 ^ 2 < 1000 * 2 ^ 52) by (vm_compute; reflexivity).
    assert (0 < 2 ^ (52 - E)) by (apply pow2_pos; lia). nia. }
  destruct (Z.eq_dec E 49) as [H49|Hlt].
  - rewrite H49 in *. change (2 ^ (52 - 49)) with 8 in *.
    assert (Hn' : n = 1000 * 2 ^ 49).
    { assert (1000 * 2 ^ 52 = 1000 * 2 ^ 49 * 8) by reflexivity. lia. }
    rewrite Hn'.
    replace (1000 * 2 ^ 49 * 8) with (2 ^ 52 * 1000) by reflexivity.
    rewrite rhe_div_exact by lia.
    rewrite <- Z.pow_add_r by lia. apply pow2_le. lia.
  - apply Z.le_trans with (2 ^ 53 * 2 ^ (E + 1022)).
    { apply Z.mul_le_mono_nonneg_r; lia. }
    rewrite <- Z.pow_add_r by lia. apply pow2_le. lia.
Qed.

Lemma thousandths_range (v : Z) :
  0 <= v < 2 ^ 1123 -> 0 <= rhe_div (1000 * v) (2 ^ 1074) <= 1000 * 2 ^ 49.
Proof.
  intros Hv. assert (P : 0 < 2 ^ 1074) by (apply pow2_pos; lia).
  split; [apply rhe_div_nonneg; lia|].
  apply Z.le_trans with (rhe_div (1000 * 2 ^ 49 * 2 ^ 1074) (2 ^ 1074)).
  - apply rhe_div_mono; [assumption|].
    replace (1000 * 2 ^ 49 * 2 ^ 1074) with (1000 * 2 ^ 1123); [lia|].
    rewrite <- Z.mul_assoc, <- Z.pow_add_r by lia. reflexivity.
  - rewrite rhe_div_exact; lia.
Qed.

Lemma round3_mag_unfold (v : Z) :
  round3_mag v
  = let n := rhe_div (1000 * v) (2 ^ 1074) in if n =? 0 then 0 else thousandth_value n.
Proof. reflexivity. Qed.

Lemma round3_mag_range (v : Z) : 0 <= v < 2 ^ 1123 -> 0 <= round3_mag v <= 2 ^ 1123.
Proof.
  intros Hv. rewrite round3_mag_unfold. cbn zeta.
  pose proof (thousandths_range v Hv) as Hn.
  destruct (Z.eqb_spec (rhe_div (1000 * v) (2 ^ 1074)) 0).
  - split; [lia | apply Z.pow_nonneg; lia].
  - apply thousandth_value_top. lia.
Qed.

Lemma round3_mag_mono (v v' : Z) :
  0 <= v -> v <= v' -> v' < 2 ^ 1123 -> round3_mag v <= round3_mag v'.
Proof.
  intros H0 Hle Hhi. rewrite !round3_mag_unfold. cbn zeta.
  pose proof (thousandths_range v ltac:(lia)) as Hn.
  pose proof (thousandths_range v' ltac:(lia)) as Hn'.
  assert (P : 0 < 2 ^ 1074) by (apply pow2_pos; lia).
  assert (Hnn : rhe_div (1000 * v) (2 ^ 1074) <= rhe_div (1000 * v') (2 ^ 1074))
    by (apply rhe_div_mono; lia).
  assert (H60 : 1000 * 2 ^ 49 < 2 ^ 60) by (vm_compute; reflexivity).
  destruct (Z.eqb_spec (rhe_div (1000 * v) (2 ^ 1074)) 0) as [Hz|Hnz];
    destruct (Z.eqb_spec (rhe_div (1000 * v') (2 ^ 1074)) 0) as [Hz'|Hnz'].
  - lia.
  - apply thousandth_value_top. lia.
  - lia.
  - apply thousandth_value_mono; lia.
Qed.

Lemma round3_val_nonneg (v : Z) : 0 <= v -> 0 <= round3_val v.
Proof.
  intros Hv. unfold round3_val. destruct (Z.ltb_spec v (2 ^ 1123)); [|lia].
  apply round3_mag_range. lia.
Qed.

Lemma round3_val_mono (v v' : Z) : 0 <= v -> v <= v' -> round3_val v <= round3_val v'.
Proof.
  intros H0 Hle. unfold round3_val.
  destruct (Z.ltb_spec v (2 ^ 1123)), (Z.ltb_spec v' (2 ^ 1123)); try lia.
  - apply round3_mag_mono; lia.
  - pose proof (round3_mag_range v ltac:(lia)). lia.
Qed.

Lemma signed_round3_mono (v v' : Z) : v <= v' -> signed_round3 v <= signed_round3 v'.
Proof.
  intros Hle. unfold signed_round3.
  destruct (Z.leb_spec 0 v), (Z.leb_spec 0 v'); try lia.
  - apply round3_val_mono; lia.
  - pose proof (round3_val_nonneg (- v) ltac:(lia)).
    pose proof (round3_val_nonneg v' ltac:(lia)). lia.
  - pose proof (round3_val_mono (- v') (- v) ltac:(lia) ltac:(lia)). lia.
Qed.

Lemma thousandths_scaled (m : positive) (e : Z) :
  -1074 <= e < 0 ->
  rhe_div (1000 * Zpos m) (2 ^ (- e))
  = rhe_div (1000 * (Zpos m * 2 ^ (e + 1074))) (2 ^ 1074).
Proof.
  intros He.
  assert (Pk : 0 < 2 ^ (e + 1074)) by (apply pow2_pos; lia).
  assert (Pe : 0 < 2 ^ (- e)) by (apply pow2_pos; lia).
  rewrite <- (rhe_div_scale (1000 * Zpos m) (2 ^ (- e)) (2 ^ (e + 1074))) by assumption.
  f_equal; [lia|]. rewrite <- Z.pow_add_r by lia. f_equal. lia.
Qed.

(** [round3] on the values: the sign is kept and the magnitude goes through
    [round3_val]. *)
Lemma fval_round3 (x : float) :
  not_nan x = true ->
  not_nan (round3 x) = true /\ fval (round3 x) = signed_round3 (fval x).
Proof.
  unfold not_nan, fval, round3. pose proof (Prim2SF_valid x) as Hv.
  assert (Ptop : 0 < 2 ^ 2100) by (apply pow2_pos; lia).
  assert (P1123 : 2 ^ 1123 < 2 ^ 2100) by (apply pow2_lt; lia).
  destruct (Prim2SF x) as [s|s| |s m e] eqn:Ex; try discriminate; intros _.
  - rewrite Ex. split; reflexivity.
  - rewrite Ex. split; [reflexivity|]. cbn [ext]. unfold signed_round3, round3_val.
    destruct s; cbn [cond_Zopp].
    + destruct (Z.leb_spec 0 (- 2 ^ 2100)); [lia|].
      rewrite Z.opp_involutive. destruct (Z.ltb_spec (2 ^ 2100) (2 ^ 1123)); lia.
    + destruct (Z.leb_spec 0 (2 ^ 2100)); [|lia].
      destruct (Z.ltb_spec (2 ^ 2100) (2 ^ 1123)); lia.
  - destruct (valid_finite _ _ _ Hv) as (He & _).
    destruct (valid_magnitude _ _ _ Hv) as [[Vpos Vup] Vlo].
    set (V := Zpos m * 2 ^ (e + 1074)) in *.
    assert (Hsigned : forall w, (0 <= w) ->
              signed_round3 (cond_Zopp s V)
              = cond_Zopp s (round3_val V)).
    { intros w _. unfold signed_round3. destruct s; cbn [cond_Zopp].
      - destruct (Z.leb_spec 0 (- V)); [lia|]. now rewrite Z.opp_involutive.
      - destruct (Z.leb_spec 0 V); [reflexivity | lia]. }
    cbn [ext]. fold V. rewrite (Hsigned 0 (Z.le_refl 0)).
    destruct (Z.leb_spec (-3) e) as [Hbig|Hsmall].
    + (* already a multiple of 1/8 *)
      rewrite Ex. split; [reflexivity|]. cbn [ext]. fold V.
      unfold round3_val. destruct (Z.ltb_spec V (2 ^ 1123)) as [Hlt|]; [|reflexivity].
      exfalso. specialize (Vlo ltac:(lia)).
      assert (2 ^ 1123 <= 2 ^ (e + 1126)) by (apply pow2_le; lia). lia.
    + assert (HV : 0 <= V < 2 ^ 1123).
      { split; [lia|]. eapply Z.lt_le_trans; [exact Vup|]. apply pow2_le. lia. }
      unfold round3_val. destruct (Z.ltb_spec V (2 ^ 1123)) as [_|]; [|lia].
      rewrite round3_mag_unfold. cbn zeta.
      rewrite (thousandths_scaled m e) by lia. fold V.
      pose proof (thousandths_range V HV) as Hn.
      set (n := rhe_div (1000 * V) (2 ^ 1074)) in *.
      destruct (Z.eqb_spec n 0) as [Hz|Hnz].
      * rewrite Prim2SF_SF2Prim by reflexivity.
        split; [reflexivity | now destruct s].
      * assert (H60 : 0 < n < 2 ^ 60).
        { assert (1000 * 2 ^ 49 < 2 ^ 60) by (vm_compute; reflexivity). lia. }
        destruct (nearest_thousandth_spec s n H60) as [Hval Hext].
        rewrite Prim2SF_SF2Prim by exact Hval.
        split; [|exact Hext].
        unfold nearest_thousandth. now destruct (_ =? _).
Qed.

(** Rounding to three decimals keeps the order. *)
Lemma round3_mono (x y : float) :
  PrimFloat.leb x y = true -> PrimFloat.leb (round3 x) (round3 y) = true.
Proof.
  intros H. destruct (leb_not_nan _ _ H) as [Nx Ny].
  rewrite leb_fval in H by assumption. apply Z.leb_le in H.
  destruct (fval_round3 x Nx) as [Nrx Hx].
  destruct (fval_round3 y Ny) as [Nry Hy].
  rewrite leb_fval by assumption. apply Z.leb_le.
  rewrite Hx, Hy. now apply signed_round3_mono.
Qed.

End Binary64.

(* ================================================================== *)
(** * Filters, quantity, persistence and totality (C2, C6, C7, C8, C10) *)

Section HardFilters.
Import Py PyFacts.
Open Scope string_scope.

(** C2. For every Preference of the data model and every quantity, each
    Suggestion returned by [generate_suggestions] passes both hard filters:
    when [gender] is set its gender is the requested one or "unisex", and
    when [max_length] is set its name is at most that long; a catalog
    record failing a filter has no suggestion in the output at all. *)
Theorem hard_filters_hold (pref : Preference) (limit : Z) (out : list Suggestion)
  (s : Suggestion) :
  well_formed pref = true ->
  generate_suggestions pref limit = Ok out ->
  In s out ->
  (forall g, gender pref = Some g ->
             sg_gender s = Some g \/ sg_gender s = Some "unisex")
  /\ (forall L, max_length pref = Some L -> (len (sg_name s) <= L)%Z)
  /\ (forall item, In item BASIC_NAMES -> fails_filter pref item ->
                   sg_name s <> item_name item).
Proof.
  intros Hwf Hgen Hin.
  destruct (generate_suggestions_from _ _ _ _ Hgen Hin)
    as (score & item & -> & Hcat & Hex & _).
  unfold excluded in Hex. apply orb_false_elim in Hex as [Hlen Hgd].
  assert (G : forall g, gender pref = Some g ->
              item_gender item = g \/ item_gender item = "unisex").
  { intros g Hg. unfold wrong_gender in Hgd.
    rewrite (well_formed_gender _ _ Hwf Hg) in Hgd.
    apply negb_false_iff, orb_prop in Hgd as [H|H];
      apply String.eqb_eq in H; auto. }
  assert (M : forall L, max_length pref = Some L -> (len (item_name item) <= L)%Z).
  { intros L HL. unfold too_long in Hlen.
    rewrite (well_formed_max_length _ _ Hwf HL) in Hlen.
    apply Z.ltb_ge in Hlen. exact Hlen. }
  simpl. split; [|split].
  - intros g Hg. destruct (G g Hg) as [->| ->]; auto.
  - exact M.
  - intros item' Hcat' Hfail Hname.
    assert (item = item') as <- by now apply catalog_name_inj.
    destruct Hfail as [(L & HL & Hlt)|(g & Hg & Hn1 & Hn2)].
    + specialize (M L HL). lia.
    + destruct (G g Hg); contradiction.
Qed.

Lemma hard_filters_hold_witness :
  exists out s,
    well_formed short_girl_pref = true
    /\ generate_suggestions short_girl_pref 12 = Ok out
    /\ In s out
    /\ (forall g, gender short_girl_pref = Some g ->
                  sg_gender s = Some g \/ sg_gender s = Some "unisex")
    /\ (forall L, max_length short_girl_pref = Some L -> (len (sg_name s) <= L)%Z)
    /\ (forall item, In item BASIC_NAMES -> fails_filter short_girl_pref item ->
                     sg_name s <> item_name item).
Proof.
  assert (Hwf : well_formed short_girl_pref = true) by reflexivity.
  assert (Hgen : exists s rest,
             generate_suggestions short_girl_pref 12 = Ok (s :: rest))
    by (vm_compute; eauto).
  destruct Hgen as (s & rest & Hgen).
  exists (s :: rest), s.
  assert (Hin : In s (s :: rest)) by (left; reflexivity).
  split; [exact Hwf|]. split; [exact Hgen|]. split; [exact Hin|].
  exact (hard_filters_hold short_girl_pref 12 (s :: rest) s Hwf Hgen Hin).
Defined.

End HardFilters.

Section QuantityAndPersistence.
Import Py PyFacts.
Open Scope string_scope.

Lemma generate_suggestions_zero (pref : Preference) :
  generate_suggestions pref 0 = Ok [].
Proof.
  unfold generate_suggestions.
  destruct (catalog_rank_total pref) as [ranked ->]. reflexivity.
Qed.

(** C7. For every Preference, [generate_suggestions] with quantity 0
    returns the empty sequence. *)
Theorem quantity_zero_is_empty (pref : Preference) :
  generate_suggestions pref 0 = Ok [].
Proof. apply generate_suggestions_zero. Qed.

(** C8. At [api_generate] a request whose [quantity] is 0 or None is
    served with quantity 12 ([req.quantity or 12]): the response holds the
    suggestions of [generate_suggestions] at limit 12, as many as 12 or as
    there are eligible records, where the engine at limit 0 returns none. *)
Theorem quantity_zero_or_none_is_12 (World : Type)
  (sink : string -> Generation -> World -> result string * World)
  (req : GenerateRequest) (w : World) :
  quantity req = None \/ quantity req = Some 0%Z ->
  exists out,
    generate_suggestions (req_preference req) 12 = Ok out
    /\ fst (api_generate sink req w) = Ok {| suggestions := out |}
    /\ List.length out
       = Nat.min 12 (List.length (eligible (req_preference req) BASIC_NAMES))
    /\ generate_suggestions (req_preference req) 0 = Ok [].
Proof.
  intros Hq.
  assert (Hqty : quantity_or_12 req = 12%Z).
  { unfold quantity_or_12. destruct Hq as [-> | ->]; reflexivity. }
  destruct (generate_suggestions_total (req_preference req) 12) as [out Hout].
  exists out. split; [assumption|]. split; [|split].
  - unfold api_generate. rewrite Hqty, Hout. reflexivity.
  - apply (generate_suggestions_length (req_preference req) 12);
      [lia | assumption].
  - apply generate_suggestions_zero.
Qed.

Lemma quantity_zero_or_none_is_12_witness :
  let req := {| req_preference := only_surname "Smith"; quantity := Some 0%Z |} in
  (quantity req = None \/ quantity req = Some 0%Z)
  /\ exists out,
       generate_suggestions (req_preference req) 12 = Ok out
       /\ fst (api_generate list_sink req []) = Ok {| suggestions := out |}
       /\ List.length out
          = Nat.min 12 (List.length (eligible (req_preference req) BASIC_NAMES))
       /\ generate_suggestions (req_preference req) 0 = Ok [].
Proof.
  intros req.
  assert (Hq : quantity req = None \/ quantity req = Some 0%Z)
    by (right; reflexivity).
  split; [exact Hq|].
  exact (quantity_zero_or_none_is_12 _ list_sink req [] Hq).
Defined.

(** C6. When the persistence sink raises on every call, [api_generate]
    still returns the full ranked sequence of [generate_suggestions], the
    same response it returns with any other sink; what the sink raises
    does not reach the caller. *)
Theorem sink_failure_is_discarded (World : Type)
  (sink : string -> Generation -> World -> result string * World)
  (req : GenerateRequest) (w : World) :
  exists out,
    generate_suggestions (req_preference req) (quantity_or_12 req) = Ok out
    /\ api_generate failing_sink req w = (Ok {| suggestions := out |}, w)
    /\ fst (api_generate sink req w) = Ok {| suggestions := out |}.
Proof.
  destruct (generate_suggestions_total (req_preference req) (quantity_or_12 req))
    as [out Hout].
  exists out. split; [assumption|]. split.
  - unfold api_generate. rewrite Hout. reflexivity.
  - unfold api_generate. rewrite Hout. reflexivity.
Qed.

(** C10. For every Preference and every integer quantity [score_name] and
    [generate_suggestions] return without raising over the catalog: each
    catalog name is non-empty, which is all the unguarded access [n[0]]
    needs, and a sequence, possibly empty, is returned. *)
Theorem engine_is_total (pref : Preference) (limit : Z) :
  (forall item, In item BASIC_NAMES ->
     nonempty (item_name item) = true
     /\ exists score, score_name pref item = Ok score)
  /\ (exists out, generate_suggestions pref limit = Ok out)
  /\ ((forall item, In item BASIC_NAMES -> excluded pref item = true) ->
      generate_suggestions pref limit = Ok []).
Proof.
  split; [|split].
  - intros item Hin.
    assert (Hn : nonempty (item_name item) = true)
      by now apply record_ok_name, catalog_record_ok.
    split; [assumption | now apply score_name_total].
  - apply generate_suggestions_total.
  - intros Hex.
    destruct (generate_suggestions_total pref limit) as [out Hout].
    rewrite Hout. f_equal. destruct out as [|s out]; [reflexivity|].
    destruct (generate_suggestions_from _ _ _ _ Hout (or_introl eq_refl))
      as (_ & item & _ & Hin & Hno & _).
    rewrite (Hex item Hin) in Hno. discriminate.
Qed.

End QuantityAndPersistence.

(* ================================================================== *)
(** * The scoring table and the Smith scenario (C1, C9) *)

Section FloatSub.
Open Scope float_scope.

Lemma SFsub_add_opp (x y : spec_float) :
  SFsub prec emax x y = SFadd prec emax x (SFopp y).
Proof.
  destruct x as [sx|sx| |sx mx ex], y as [sy|sy| |sy my ey];
    try reflexivity; destruct sx, sy; reflexivity.
Qed.

(** Subtracting is adding the opposite, bit for bit. *)
Lemma float_sub_add_opp (x c : float) : x - c = x + (- c).
Proof.
  apply Prim2SF_inj.
  rewrite sub_spec, add_spec, opp_spec. apply SFsub_add_opp.
Qed.

Lemma sub_tenths (x : float) :
  x - 0.5 = x + (-0.5) /\ x - 0.2 = x + (-0.2) /\ x - 0.3 = x + (-0.3).
Proof. repeat split; apply float_sub_add_opp. Qed.

Lemma sub_02 (x : float) : x - 0.2 = x + (-0.2).
Proof. apply sub_tenths. Qed.

Lemma sub_03 (x : float) : x - 0.3 = x + (-0.3).
Proof. apply sub_tenths. Qed.

End FloatSub.

Section Table.
Import Py PyFacts.
Open Scope string_scope.
Open Scope float_scope.

Lemma total_app (rows : list float) (acc : float) (more : list float) :
  fold_left PrimFloat.add (rows ++ more) acc
  = fold_left PrimFloat.add more (fold_left PrimFloat.add rows acc).
Proof. apply fold_left_app. Qed.

Lemma row_true (c : float) (acc : float) :
  fold_left PrimFloat.add (row true c) acc = acc + c.
Proof. reflexivity. Qed.

Lemma row_false (c : float) (acc : float) :
  fold_left PrimFloat.add (row false c) acc = acc.
Proof. reflexivity. Qed.

Lemma gender_step_rows (pref : Preference) (item : NameRecord) (score : float) :
  well_formed pref = true ->
  gender_step pref item score = fold_left PrimFloat.add (gender_rows pref item) score.
Proof.
  intros Hwf. unfold gender_step, gender_rows.
  destruct (gender pref) as [g|] eqn:Hg; [|reflexivity].
  rewrite <- Hg, (well_formed_gender pref g Hwf Hg).
  destruct (String.eqb (item_gender item) g
            || String.eqb g "unisex" && String.eqb (item_gender item) "unisex");
    simpl; [reflexivity | apply float_sub_add_opp].
Qed.

Lemma any_in_ci (xs : list string) (text : string) :
  any_in xs (lower text) = existsb (fun x => ci_substring x text) xs.
Proof. reflexivity. Qed.

Lemma culture_step_rows (pref : Preference) (item : NameRecord) (score : float) :
  nonempty (item_origin item) = true ->
  culture_step pref item score
  = fold_left PrimFloat.add
      (row (existsb (fun c => ci_substring c (item_origin item)) (cultures pref)) 1.5)
      score.
Proof.
  intros Ho. unfold culture_step. rewrite Ho, any_in_ci. simpl andb.
  destruct (cultures pref) as [|c cs]; [reflexivity|].
  now destruct (existsb _ (c :: cs)).
Qed.

Lemma themes_step_rows (xs : list string) (item : NameRecord) (c score : float) :
  match xs with
  | [] => score
  | _ :: _ => if any_in xs (themes_text item) then score + c else score
  end
  = fold_left PrimFloat.add
      (row (existsb (fun x => ci_substring x (join "," (item_themes item))) xs) c) score.
Proof.
  unfold themes_text. rewrite any_in_ci.
  destruct xs as [|x xs]; [reflexivity|].
  now destruct (existsb _ (x :: xs)).
Qed.

Lemma style_step_rows (pref : Preference) (item : NameRecord) (score : float) :
  style_step pref item score
  = fold_left PrimFloat.add
      (row (match truthy (style pref) with
            | Some st => ci_substring st (join "," (item_themes item))
            | None => false
            end) 1) score.
Proof.
  unfold style_step, themes_text, ci_substring.
  destruct (truthy (style pref)) as [st|]; [|reflexivity].
  now destruct (contains _ _).
Qed.

Lemma prefix_step_rows (pref : Preference) (item : NameRecord) (score : float) :
  prefix_step pref item score
  = fold_left PrimFloat.add
      (row (match truthy (starts_with pref) with
            | Some p => ci_prefix p (item_name item)
            | None => false
            end) 0.8) score.
Proof.
  unfold prefix_step, ci_prefix.
  destruct (truthy (starts_with pref)) as [p|]; [|reflexivity].
  now destruct (startswith _ _).
Qed.

Lemma length_step_rows (pref : Preference) (item : NameRecord) (score : float) :
  well_formed pref = true ->
  length_step pref item score
  = fold_left PrimFloat.add
      (row (match max_length pref with
            | Some L => (len (item_name item) <=? L)%Z
            | None => false
            end) 0.4) score.
Proof.
  intros Hwf. unfold length_step.
  destruct (max_length pref) as [L|] eqn:HL; [|reflexivity].
  rewrite <- HL, (well_formed_max_length pref L Hwf HL).
  now destruct (len (item_name item) <=? L)%Z.
Qed.

Lemma surname_step_rows (pref : Preference) (item : NameRecord) (score : float) :
  nonempty (item_name item) = true ->
  surname_step pref item score
  = Ok (fold_left PrimFloat.add
          (row (same_first_letter (item_name item) (surname pref)) (-0.2)
           ++ row ((2 <? len (item_name item))%Z && (2 <? len (surname pref))%Z
                   && String.eqb (last_chars 2 (lower (item_name item)))
                                 (last_chars 2 (lower (surname pref)))) (-0.2))
          score).
Proof.
  intros Hn. unfold surname_step, same_first_letter, first_letter.
  rewrite !lower_len.
  destruct (item_name item) as [|a n]; [discriminate|].
  destruct (surname pref) as [|b s].
  - change (2 <? len "")%Z with false. rewrite andb_false_r. reflexivity.
  - cbn [nonempty lower first_char bind].
    rewrite total_app.
    destruct (Ascii.eqb (lower_char a) (lower_char b)); simpl row;
      cbn [fold_left];
      match goal with |- context [if ?c then _ else _] => destruct c end;
      cbn [row fold_left]; rewrite ?sub_02; reflexivity.
Qed.

Lemma uniqueness_term_rows (pref : Preference) (pop score : float) :
  score + uniqueness_term pref pop
  = fold_left PrimFloat.add (uniqueness_rows pref pop) score.
Proof.
  unfold uniqueness_term, uniqueness_rows, balanced_term.
  destruct (opt_eqb (uniqueness pref) "unique"); [reflexivity|].
  now destruct (opt_eqb (uniqueness pref) "common").
Qed.

Lemma sibling_step_rows (item : NameRecord) (score : float) (sib : string) :
  sibling_step item score sib
  = fold_left PrimFloat.add (sibling_rows item sib) score.
Proof.
  unfold sibling_step, sibling_rows, ci_prefix, ci_suffix.
  rewrite lower_first_chars, lower_last_chars, lower_len, total_app.
  destruct (nonempty sib); [|reflexivity]. simpl andb.
  destruct (startswith _ _); cbn [row fold_left];
    match goal with |- context [if ?c then _ else _] => destruct c end;
    cbn [row fold_left]; rewrite ?sub_03; reflexivity.
Qed.

Lemma siblings_rows (item : NameRecord) (sibs : list string) (score : float) :
  fold_left (sibling_step item) sibs score
  = fold_left PrimFloat.add (flat_map (sibling_rows item) sibs) score.
Proof.
  revert score. induction sibs as [|sib sibs IH]; intros score; [reflexivity|].
  cbn [fold_left flat_map]. now rewrite total_app, IH, sibling_step_rows.
Qed.

(** On a Preference of the data model and a record with a non-empty name
    and origin, the code computes the sum of the table read with [truthy]. *)
Lemma score_name_table (pref : Preference) (item : NameRecord) :
  well_formed pref = true -> record_ok item = true ->
  score_name pref item = Ok (table_score pref item).
Proof.
  intros Hwf Hok.
  pose proof (record_ok_name item Hok) as Hn.
  pose proof (record_ok_origin item Hok) as Ho.
  unfold score_name, table_score, total, table.
  rewrite (surname_step_rows pref item _ Hn). cbn [bind]. f_equal.
  rewrite siblings_rows, uniqueness_term_rows.
  rewrite (length_step_rows pref item _ Hwf), prefix_step_rows, style_step_rows.
  unfold belief_step, language_step. rewrite !themes_step_rows.
  rewrite (culture_step_rows pref item _ Ho), (gender_step_rows pref item _ Hwf).
  rewrite <- !total_app, <- app_assoc. reflexivity.
Qed.

End Table.

Section TableClaims.
Import Py PyFacts.
Open Scope string_scope.

(** C1 (as stated) fails: with [style] set to the empty text the table as
    the specification words it adds +1.0 (the empty text is a substring of
    the themes), while [score_name] treats an empty [style] as unset and
    adds nothing. *)
Lemma score_name_not_table_as_stated :
  well_formed empty_style_pref = true
  /\ In james BASIC_NAMES
  /\ score_name empty_style_pref james
     <> Ok (table_score_as_stated empty_style_pref james).
Proof.
  split; [reflexivity|]. split; [left; reflexivity|].
  intros H.
  apply (f_equal (fun r => match r with
                           | Ok x => PrimFloat.ltb x 0.5
                           | Raise _ => false
                           end)) in H.
  vm_compute in H. discriminate.
Qed.

(** C1 (amended). For every Preference of the data model and every catalog
    record, [score_name] returns the sum, taken top to bottom, of the rows
    of the scoring table that apply, where the style row and the prefix row
    apply only when [style], respectively [starts_with], is a non-empty
    text. *)
Theorem score_name_is_table_sum (pref : Preference) (item : NameRecord) :
  well_formed pref = true ->
  In item BASIC_NAMES ->
  score_name pref item = Ok (table_score pref item).
Proof.
  intros Hwf Hin. apply score_name_table; [assumption|].
  now apply catalog_record_ok.
Qed.

Lemma score_name_is_table_sum_witness :
  well_formed smith_pref = true
  /\ In noah BASIC_NAMES
  /\ score_name smith_pref noah = Ok (table_score smith_pref noah).
Proof.
  assert (Hwf : well_formed smith_pref = true) by reflexivity.
  assert (Hin : In noah BASIC_NAMES)
    by (unfold BASIC_NAMES; repeat first [left; reflexivity | right]).
  split; [exact Hwf|]. split; [exact Hin|].
  exact (score_name_is_table_sum smith_pref noah Hwf Hin).
Defined.

(** C9. For the Preference [{surname: "Smith", gender: "boy", cultures:
    ["Hebrew"], uniqueness: "unique"}] and quantity 1 the engine returns
    exactly one Suggestion, named "Noah"; every other boy or unisex record
    of the seed list scores strictly less than Noah. *)
Theorem smith_scenario_top_is_noah :
  exists s x,
    generate_suggestions smith_pref 1 = Ok [s]
    /\ sg_name s = "Noah"
    /\ score_name smith_pref noah = Ok x
    /\ forall item y,
         In item BASIC_NAMES ->
         item_gender item = "boy" \/ item_gender item = "unisex" ->
         item_name item <> "Noah" ->
         score_name smith_pref item = Ok y ->
         PrimFloat.ltb y x = true.
Proof.
  eexists. eexists.
  split; [vm_compute; reflexivity|].
  split; [reflexivity|].
  split; [vm_compute; reflexivity|].
  intros item y Hin Hg Hn Hs.
  unfold BASIC_NAMES in Hin. simpl in Hin.
  repeat (destruct Hin as [<-|Hin];
          [ vm_compute in Hs; injection Hs as <-;
            first [ reflexivity
                  | exfalso; apply Hn; reflexivity
                  | exfalso; destruct Hg as [Hg|Hg]; discriminate Hg ] | ]).
  contradiction.
Qed.

End TableClaims.

(* ================================================================== *)
(** ** Scores are numbers *)

Section ScoresAreNumbers.
Import Py PyFacts.
Open Scope float_scope.

Lemma catalog_terms_finite : forallb uniqueness_terms_finite BASIC_NAMES = true.
Proof. vm_compute. reflexivity. Qed.

Lemma uniqueness_term_finite (pref : Preference) (item : NameRecord) :
  In item BASIC_NAMES ->
  finite_float (uniqueness_term pref (item_popularity item)) = true.
Proof.
  intros Hin. pose proof catalog_terms_finite as Hall.
  rewrite forallb_forall in Hall. specialize (Hall item Hin).
  unfold uniqueness_terms_finite in Hall.
  apply andb_prop in Hall as [Hall Hb]. apply andb_prop in Hall as [Hu Hc].
  unfold uniqueness_term.
  destruct (opt_eqb (uniqueness pref) "unique"); [exact Hu|].
  destruct (opt_eqb (uniqueness pref) "common"); [exact Hc | exact Hb].
Qed.

Lemma gender_step_number (pref : Preference) (item : NameRecord) (score : float) :
  not_nan score = true -> not_nan (gender_step pref item score) = true.
Proof.
  intros H. unfold gender_step.
  destruct (truthy (gender pref)); [|assumption].
  destruct (_ || _); [apply add_not_nan | apply sub_not_nan]; auto.
Qed.

Lemma culture_step_number (pref : Preference) (item : NameRecord) (score : float) :
  not_nan score = true -> not_nan (culture_step pref item score) = true.
Proof.
  intros H. unfold culture_step.
  destruct (cultures pref); [assumption|].
  destruct (_ && _); [apply add_not_nan|]; auto.
Qed.

Lemma language_step_number (pref : Preference) (item : NameRecord) (score : float) :
  not_nan score = true -> not_nan (language_step pref item score) = true.
Proof.
  intros H. unfold language_step.
  destruct (languages pref); [assumption|].
  destruct (any_in _ _); [apply add_not_nan|]; auto.
Qed.

Lemma belief_step_number (pref : Preference) (item : NameRecord) (score : float) :
  not_nan score = true -> not_nan (belief_step pref item score) = true.
Proof.
  intros H. unfold belief_step.
  destruct (beliefs pref); [assumption|].
  destruct (any_in _ _); [apply add_not_nan|]; auto.
Qed.

Lemma style_step_number (pref : Preference) (item : NameRecord) (score : float) :
  not_nan score = true -> not_nan (style_step pref item score) = true.
Proof.
  intros H. unfold style_step.
  destruct (truthy (style pref)); [|assumption].
  destruct (contains _ _); [apply add_not_nan|]; auto.
Qed.

Lemma prefix_step_number (pref : Preference) (item : NameRecord) (score : float) :
  not_nan score = true -> not_nan (prefix_step pref item score) = true.
Proof.
  intros H. unfold prefix_step.
  destruct (truthy (starts_with pref)); [|assumption].
  destruct (startswith _ _); [apply add_not_nan|]; auto.
Qed.

Lemma length_step_number (pref : Preference) (item : NameRecord) (score : float) :
  not_nan score = true -> not_nan (length_step pref item score) = true.
Proof.
  intros H. unfold length_step.
  destruct (truthy_int (max_length pref)); [|assumption].
  destruct (_ <=? _)%Z; [apply add_not_nan|]; auto.
Qed.

Lemma surname_step_number (pref : Preference) (item : NameRecord)
  (score score' : float) :
  surname_step pref item score = Ok score' ->
  not_nan score = true -> not_nan score' = true.
Proof.
  unfold surname_step. intros Hs H.
  destruct (nonempty (surname pref)); [|now injection Hs as <-].
  apply bind_ok in Hs as (n0 & _ & Hs). apply bind_ok in Hs as (s0 & _ & Hs).
  injection Hs as <-.
  assert (H1 : not_nan (if Ascii.eqb n0 s0 then score - 0.2 else score) = true).
  { destruct (Ascii.eqb n0 s0); [apply sub_not_nan|]; auto. }
  destruct (_ && _); [apply sub_not_nan|]; auto.
Qed.

Lemma sibling_step_number (item : NameRecord) (score : float) (sib : string) :
  not_nan score = true -> not_nan (sibling_step item score sib) = true.
Proof.
  intros H. unfold sibling_step.
  destruct (nonempty sib); [|assumption].
  assert (H1 : not_nan (if startswith (lower (item_name item))
                             (first_chars 1 (lower sib))
                        then score - 0.3 else score) = true).
  { destruct (startswith _ _); [apply sub_not_nan|]; auto. }
  destruct (_ && _); [apply sub_not_nan|]; auto.
Qed.

Lemma siblings_number (item : NameRecord) (sibs : list string) (score : float) :
  not_nan score = true ->
  not_nan (fold_left (sibling_step item) sibs score) = true.
Proof.
  revert score. induction sibs as [|sib sibs IH]; intros score H; [assumption|].
  cbn [fold_left]. apply IH. now apply sibling_step_number.
Qed.

(** The score of a catalog record is never NaN. *)
Lemma score_name_number (pref : Preference) (item : NameRecord) (score : float) :
  In item BASIC_NAMES -> score_name pref item = Ok score -> not_nan score = true.
Proof.
  intros Hin. unfold score_name. intros Hs.
  apply bind_ok in Hs as (s1 & Hs1 & Hs). injection Hs as <-.
  apply siblings_number, add_not_nan; [|now apply uniqueness_term_finite].
  apply (surname_step_number pref item _ s1 Hs1).
  apply length_step_number, prefix_step_number, style_step_number,
    belief_step_number, language_step_number, culture_step_number,
    gender_step_number.
  reflexivity.
Qed.

End ScoresAreNumbers.

(* ================================================================== *)
(** ** Positions in a list *)

Section Precedes.
Context {A : Type}.

Lemma precedes_cons (h : A) (t : list A) (a b : A) :
  precedes (h :: t) a b <-> (a = h /\ In b t) \/ precedes t a b.
Proof.
  split.
  - intros (l1 & l2 & l3 & E). destruct l1 as [|x l1]; simpl in E.
    + injection E as -> ->. left. split; [reflexivity|].
      apply in_or_app. right. now left.
    + injection E as -> ->. right. now exists l1, l2, l3.
  - intros [[-> Hin]|(l1 & l2 & l3 & ->)].
    + apply in_split in Hin as (l2 & l3 & ->). now exists [], l2, l3.
    + now exists (h :: l1), l2, l3.
Qed.

Lemma precedes_nil (a b : A) : ~ precedes [] a b.
Proof. intros (l1 & l2 & l3 & E). destruct l1; discriminate. Qed.

Lemma precedes_in (l : list A) (a b : A) : precedes l a b -> In a l /\ In b l.
Proof.
  intros (l1 & l2 & l3 & ->). split.
  - apply in_or_app. right. now left.
  - apply in_or_app. right. right. apply in_or_app. right. now left.
Qed.

Lemma precedes_app_l (l l' : list A) (a b : A) :
  precedes l a b -> precedes (l ++ l') a b.
Proof.
  intros (l1 & l2 & l3 & ->). exists l1, l2, (l3 ++ l').
  now rewrite <- !app_assoc, <- !app_comm_cons, <- app_assoc.
Qed.

Lemma precedes_snoc (l : list A) (a x : A) : In a l -> precedes (l ++ [x]) a x.
Proof.
  intros Hin. apply in_split in Hin as (l1 & l2 & ->).
  exists l1, l2, []. now rewrite <- app_assoc.
Qed.

Lemma precedes_firstn (k : nat) (l : list A) (a b : A) :
  precedes (firstn k l) a b -> precedes l a b.
Proof.
  intros H. rewrite <- (firstn_skipn k l). now apply precedes_app_l.
Qed.

Lemma precedes_filter (f : A -> bool) (l : list A) (a b : A) :
  precedes (filter f l) a b -> precedes l a b.
Proof.
  induction l as [|h t IH]; simpl; [trivial|].
  destruct (f h).
  - intros H. apply precedes_cons in H as [[-> Hin]|H]; apply precedes_cons.
    + left. split; [reflexivity|]. apply filter_In in Hin. tauto.
    + right. now apply IH.
  - intros H. apply precedes_cons. right. now apply IH.
Qed.

Lemma precedes_nth_error (l : list A) (a b : A) :
  precedes l a b <->
  exists i j, (i < j)%nat /\ nth_error l i = Some a /\ nth_error l j = Some b.
Proof.
  split.
  - intros (l1 & l2 & l3 & ->).
    exists (List.length l1), (List.length l1 + S (List.length l2))%nat.
    split; [lia|]. split.
    + rewrite nth_error_app2, Nat.sub_diag by lia. reflexivity.
    + rewrite nth_error_app2 by lia.
      replace (List.length l1 + S (List.length l2) - List.length l1)%nat
        with (S (List.length l2)) by lia.
      cbn [nth_error]. rewrite nth_error_app2, Nat.sub_diag by lia. reflexivity.
  - revert l. intros l (i & j & Hij & Hi & Hj).
    revert l j Hij Hi Hj. induction i as [|i IH]; intros l j Hij Hi Hj.
    + destruct l as [|h t]; [discriminate|]. injection Hi as ->.
      destruct j as [|j]; [lia|]. cbn [nth_error] in Hj.
      apply precedes_cons. left. split; [reflexivity|].
      now apply nth_error_In in Hj.
    + destruct l as [|h t]; [discriminate|].
      destruct j as [|j]; [lia|]. cbn [nth_error] in Hi, Hj.
      apply precedes_cons. right. apply (IH t j); [lia | assumption..].
Qed.

Lemma sorted_precedes (R : A -> A -> Prop) (l : list A) (a b : A) :
  StronglySorted R l -> precedes l a b -> R a b.
Proof.
  induction 1 as [|h t Hs IH Hall]; intros H.
  - now apply precedes_nil in H.
  - apply precedes_cons in H as [[-> Hin]|H]; [|now apply IH].
    rewrite Forall_forall in Hall. now apply Hall.
Qed.

Lemma sorted_firstn (R : A -> A -> Prop) (k : nat) (l : list A) :
  StronglySorted R l -> StronglySorted R (firstn k l).
Proof.
  intros H. revert k. induction H as [|h t Hs IH Hall]; intros k.
  - rewrite firstn_nil. constructor.
  - destruct k as [|k]; [constructor|]. cbn [firstn]. constructor; [apply IH|].
    rewrite Forall_forall in *. intros x Hx. apply Hall.
    rewrite <- (firstn_skipn k t). apply in_or_app. now left.
Qed.

End Precedes.

Lemma precedes_map {A B : Type} (f : A -> B) (l : list A) (x y : B) :
  precedes (map f l) x y ->
  exists a b, precedes l a b /\ f a = x /\ f b = y.
Proof.
  induction l as [|h t IH]; simpl; intros H.
  - now apply precedes_nil in H.
  - apply precedes_cons in H as [[-> Hin]|H].
    + apply in_map_iff in Hin as (b & <- & Hb).
      exists h, b. split; [|now split]. apply precedes_cons. now left.
    + destruct (IH H) as (a & b & Hab & Ha & Hb).
      exists a, b. split; [|now split]. apply precedes_cons. now right.
Qed.

Lemma map_precedes {A B : Type} (f : A -> B) (l : list A) (a b : A) :
  precedes l a b -> precedes (map f l) (f a) (f b).
Proof.
  intros (l1 & l2 & l3 & ->).
  exists (map f l1), (map f l2), (map f l3).
  now rewrite map_app, map_cons, map_app, map_cons.
Qed.

(* ================================================================== *)
(** ** The descending stable sort *)

Section SortOrder.
Context {A : Type} (key : A -> float).

Let kv (a : A) : Z := fval (key a).
Let number (a : A) : Prop := not_nan (key a) = true.

Lemma insert_desc_forall (P : A -> Prop) (x : A) (l : list A) :
  P x -> Forall P l -> Forall P (insert_desc key x l).
Proof.
  intros Hx Hl. rewrite Forall_forall in *. intros y Hy.
  apply (Permutation_in _ (insert_desc_perm key x l)) in Hy.
  destruct Hy as [<-|Hy]; auto.
Qed.

Lemma key_ge_kv (a b : A) : number a -> number b -> (key_ge key a b <-> (kv b <= kv a)%Z).
Proof.
  intros Na Nb. unfold key_ge. rewrite leb_fval by assumption. apply Z.leb_le.
Qed.

Lemma insert_desc_sorted (x : A) (l : list A) :
  number x -> Forall number l ->
  StronglySorted (key_ge key) l -> StronglySorted (key_ge key) (insert_desc key x l).
Proof.
  intros Nx Nl Hs. induction Hs as [|y l Hs IH Hall]; cbn [insert_desc].
  - repeat constructor.
  - inversion Nl as [|? ? Ny Nl']; subst.
    destruct (PrimFloat.ltb (key y) (key x)) eqn:Hlt.
    + rewrite ltb_fval in Hlt by assumption. apply Z.ltb_lt in Hlt.
      constructor; [now constructor|].
      constructor; [apply key_ge_kv; fold (kv y) (kv x) in *; auto; lia|].
      rewrite Forall_forall in *. intros z Hz.
      apply key_ge_kv; auto.
      specialize (Hall z Hz). apply key_ge_kv in Hall; auto.
      fold (kv y) (kv x) in Hlt. lia.
    + rewrite ltb_fval in Hlt by assumption. apply Z.ltb_ge in Hlt.
      constructor; [now apply IH|].
      apply insert_desc_forall; [|assumption].
      apply key_ge_kv; auto.
Qed.

Lemma sort_desc_sorted_acc (l acc : list A) :
  Forall number l -> Forall number acc ->
  StronglySorted (key_ge key) acc ->
  StronglySorted (key_ge key) (fold_left (fun acc x => insert_desc key x acc) l acc).
Proof.
  revert acc. induction l as [|x l IH]; intros acc Nl Nacc Hs; [assumption|].
  inversion Nl as [|? ? Nx Nl']; subst. cbn [fold_left]. apply IH.
  - assumption.
  - now apply insert_desc_forall.
  - now apply insert_desc_sorted.
Qed.

(** The result is in descending order of key. *)
Lemma sort_desc_sorted (l : list A) :
  Forall number l -> StronglySorted (key_ge key) (sort_desc key l).
Proof.
  intros Nl. apply sort_desc_sorted_acc; [assumption | constructor | constructor].
Qed.

(** Where the inserted element lands among the others. *)
Lemma insert_desc_precedes (x : A) (l : list A) (a b : A) :
  number x -> Forall number l -> StronglySorted (key_ge key) l ->
  precedes (insert_desc key x l) a b ->
  precedes l a b \/ (b = x /\ In a l) \/ (a = x /\ (kv b < kv x)%Z).
Proof.
  intros Nx Nl Hs. induction Hs as [|y l Hs IH Hall]; cbn [insert_desc]; intros H.
  - apply precedes_cons in H as [[_ []]|H]. now apply precedes_nil in H.
  - inversion Nl as [|? ? Ny Nl']; subst.
    destruct (PrimFloat.ltb (key y) (key x)) eqn:Hlt.
    + rewrite ltb_fval in Hlt by assumption. apply Z.ltb_lt in Hlt.
      fold (kv y) (kv x) in Hlt.
      apply precedes_cons in H as [[-> Hin]|H]; [|now left].
      right. right. split; [reflexivity|].
      destruct Hin as [<-|Hin]; [assumption|].
      rewrite Forall_forall in Hall, Nl'.
      pose proof (Hall b Hin) as Hb. apply key_ge_kv in Hb; auto. lia.
    + apply precedes_cons in H as [[-> Hin]|H].
      * apply (Permutation_in _ (insert_desc_perm key x l)) in Hin.
        destruct Hin as [<-|Hin].
        -- right. left. split; [reflexivity | now left].
        -- left. apply precedes_cons. now left.
      * destruct (IH Nl' H) as [Hp|[[-> Hin]|Hx]].
        -- left. apply precedes_cons. now right.
        -- right. left. split; [reflexivity | now right].
        -- right. now right.
Qed.

Lemma sort_desc_precedes_acc (l acc done : list A) (a b : A) :
  Forall number l -> Forall number acc ->
  StronglySorted (key_ge key) acc ->
  (forall x, In x acc -> In x done) ->
  (forall a b, precedes acc a b -> precedes done a b \/ (kv b < kv a)%Z) ->
  precedes (fold_left (fun acc x => insert_desc key x acc) l acc) a b ->
  precedes (done ++ l) a b \/ (kv b < kv a)%Z.
Proof.
  revert acc done. induction l as [|x l IH]; intros acc done Nl Nacc Hs Hin Hinv H.
  - rewrite app_nil_r. now apply Hinv.
  - inversion Nl as [|? ? Nx Nl']; subst. cbn [fold_left] in H.
    replace (done ++ x :: l) with ((done ++ [x]) ++ l)
      by (rewrite <- app_assoc; reflexivity).
    apply (IH (insert_desc key x acc)); try assumption.
    + now apply insert_desc_forall.
    + now apply insert_desc_sorted.
    + intros z Hz. apply (Permutation_in _ (insert_desc_perm key x acc)) in Hz.
      apply in_or_app. destruct Hz as [<-|Hz]; [right; now left | left; auto].
    + intros a' b' Hp.
      destruct (insert_desc_precedes x acc a' b' Nx Nacc Hs Hp)
        as [Hq|[[-> Ha]|[-> Hlt]]].
      * destruct (Hinv a' b' Hq) as [Hd|Hlt]; [left|now right].
        now apply precedes_app_l.
      * left. apply precedes_snoc. auto.
      * now right.
Qed.

(** Stability: an element overtakes another only with a strictly greater key. *)
Lemma sort_desc_stable (l : list A) (a b : A) :
  Forall number l ->
  precedes (sort_desc key l) a b -> precedes l a b \/ (kv b < kv a)%Z.
Proof.
  intros Nl H.
  apply (sort_desc_precedes_acc l [] [] a b).
  - assumption.
  - constructor.
  - constructor.
  - intros x [].
  - intros a' b' Hp. now apply precedes_nil in Hp.
  - exact H.
Qed.

End SortOrder.

(* ================================================================== *)
(** * The balanced term and the order of the output (C3, C4, C5) *)

Section OrderClaims.
Import Py PyFacts.
Open Scope string_scope.

Lemma eqb_fval (x y : float) :
  not_nan x = true -> not_nan y = true ->
  PrimFloat.eqb x y = (fval x =? fval y)%Z.
Proof.
  intros Nx Ny. rewrite eqb_spec. unfold SFeqb.
  rewrite (SFcompare_ext _ _ (Prim2SF_valid x) (Prim2SF_valid y) Nx Ny).
  unfold fval.
  destruct (Z.compare_spec (ext (Prim2SF x)) (ext (Prim2SF y))) as [E|L|G].
  - rewrite E, Z.eqb_refl. reflexivity.
  - symmetry. apply Z.eqb_neq. lia.
  - symmetry. apply Z.eqb_neq. lia.
Qed.

Lemma ranked_numbers (pref : Preference) (ranked : list (float * NameRecord)) :
  rank pref BASIC_NAMES = Ok ranked ->
  Forall (fun p => not_nan (fst p) = true) ranked.
Proof.
  intros Hr. apply Forall_forall. intros [score item] Hp.
  destruct (rank_in pref BASIC_NAMES ranked score item Hr Hp) as (Hin & _ & Hs).
  exact (score_name_number pref item score Hin Hs).
Qed.

Lemma slice_to_precedes {A : Type} (l : list A) (k : Z) (a b : A) :
  precedes (slice_to l k) a b -> precedes l a b.
Proof. unfold slice_to. destruct (0 <=? k)%Z; apply precedes_firstn. Qed.

(** Two suggestions of the output, the first before the second, come from
    two ranked entries in that order in the sorted list. *)
Lemma output_precedes (pref : Preference) (limit : Z) (out : list Suggestion)
  (a b : Suggestion) :
  generate_suggestions pref limit = Ok out -> precedes out a b ->
  exists ranked p q,
    rank pref BASIC_NAMES = Ok ranked
    /\ precedes (sort_desc fst ranked) p q
    /\ to_suggestion p = a /\ to_suggestion q = b.
Proof.
  intros H Hp. apply generate_suggestions_ok in H as (ranked & Hr & ->).
  apply precedes_map in Hp as (p & q & Hpq & Ha & Hb).
  apply slice_to_precedes in Hpq. now exists ranked, p, q.
Qed.

(** C3 (as stated) fails: with [uniqueness] neither "unique" nor "common",
    no popularity between 0 and 1 makes the uniqueness contribution of
    [score_name] strictly negative. *)
Lemma balanced_term_not_negative_on_unit_interval :
  ~ exists (pref : Preference) (pop : float),
      opt_eqb (uniqueness pref) "unique" = false
      /\ opt_eqb (uniqueness pref) "common" = false
      /\ PrimFloat.leb 0 pop = true /\ PrimFloat.leb pop 1 = true
      /\ PrimFloat.ltb (uniqueness_term pref pop) 0 = true.
Proof.
  intros (pref & pop & Hu & Hc & H0 & H1 & Hneg).
  unfold uniqueness_term in Hneg. rewrite Hu, Hc in Hneg.
  pose proof (balanced_term_nonneg pop H0 H1) as Hge.
  unfold balanced_term in Hge.
  destruct (ltb_not_nan _ _ Hneg) as [Nb Nz].
  rewrite ltb_fval in Hneg by assumption. rewrite leb_fval in Hge by assumption.
  apply Z.ltb_lt in Hneg. apply Z.leb_le in Hge. lia.
Qed.

(** C3 (amended). With [uniqueness] neither "unique" nor "common", the
    contribution [score_name] adds for a popularity between 0 and 1 is the
    balanced term 0.5 * (0.6 - |popularity - 0.6|), and it is not negative;
    it is strictly negative at popularities outside that range, such as 1.3
    and -0.1. *)
Theorem balanced_term_sign (pref : Preference) (pop : float) :
  opt_eqb (uniqueness pref) "unique" = false ->
  opt_eqb (uniqueness pref) "common" = false ->
  PrimFloat.leb 0 pop = true -> PrimFloat.leb pop 1 = true ->
  uniqueness_term pref pop = balanced_term pop
  /\ PrimFloat.leb 0 (balanced_term pop) = true
  /\ PrimFloat.ltb (balanced_term 1.3) 0 = true
  /\ PrimFloat.ltb (balanced_term (-0.1)) 0 = true.
Proof.
  intros Hu Hc H0 H1. split; [|split; [|split]].
  - unfold uniqueness_term. now rewrite Hu, Hc.
  - now apply balanced_term_nonneg.
  - reflexivity.
  - reflexivity.
Qed.

Lemma balanced_term_sign_witness :
  opt_eqb (uniqueness (only_surname "Smith")) "unique" = false
  /\ opt_eqb (uniqueness (only_surname "Smith")) "common" = false
  /\ PrimFloat.leb 0 (item_popularity james) = true
  /\ PrimFloat.leb (item_popularity james) 1 = true
  /\ uniqueness_term (only_surname "Smith") (item_popularity james)
     = balanced_term (item_popularity james)
  /\ PrimFloat.leb 0 (balanced_term (item_popularity james)) = true
  /\ PrimFloat.ltb (balanced_term 1.3) 0 = true
  /\ PrimFloat.ltb (balanced_term (-0.1)) 0 = true.
Proof.
  assert (Hu : opt_eqb (uniqueness (only_surname "Smith")) "unique" = false)
    by reflexivity.
  assert (Hc : opt_eqb (uniqueness (only_surname "Smith")) "common" = false)
    by reflexivity.
  assert (H0 : PrimFloat.leb 0 (item_popularity james) = true) by reflexivity.
  assert (H1 : PrimFloat.leb (item_popularity james) 1 = true) by reflexivity.
  split; [exact Hu|]. split; [exact Hc|]. split; [exact H0|]. split; [exact H1|].
  exact (balanced_term_sign (only_surname "Smith") (item_popularity james) Hu Hc H0 H1).
Defined.

(** C4. For every Preference and every quantity the output of
    [generate_suggestions] is in non-increasing order of its rounded scores:
    of two suggestions the earlier one has a score greater than or equal to
    the later one's, in particular for two consecutive ones. *)
Theorem output_sorted_by_score (pref : Preference) (limit : Z)
  (out : list Suggestion) (i j : nat) (a b : Suggestion) :
  generate_suggestions pref limit = Ok out ->
  (i < j)%nat ->
  nth_error out i = Some a ->
  nth_error out j = Some b ->
  PrimFloat.leb (sg_score b) (sg_score a) = true.
Proof.
  intros Hgen Hij Ha Hb.
  assert (Hp : precedes out a b) by (apply precedes_nth_error; eauto).
  destruct (output_precedes pref limit out a b Hgen Hp)
    as (ranked & p & q & Hr & Hpq & <- & <-).
  pose proof (sort_desc_sorted fst ranked (ranked_numbers pref ranked Hr)) as Hs.
  pose proof (sorted_precedes _ _ p q Hs Hpq) as Hge.
  destruct p as [xp rp], q as [xq rq]. unfold key_ge in Hge. cbn [fst] in Hge.
  cbn [to_suggestion sg_score]. now apply round3_mono.
Qed.

Lemma output_sorted_by_score_witness :
  exists out a b,
    generate_suggestions (only_surname "Day") 12 = Ok out
    /\ (0 < 1)%nat
    /\ nth_error out 0 = Some a
    /\ nth_error out 1 = Some b
    /\ PrimFloat.leb (sg_score b) (sg_score a) = true.
Proof.
  assert (Hgen : exists a b rest,
             generate_suggestions (only_surname "Day") 12 = Ok (a :: b :: rest))
    by (vm_compute; eauto).
  destruct Hgen as (a & b & rest & Hgen).
  exists (a :: b :: rest), a, b.
  assert (H01 : (0 < 1)%nat) by lia.
  assert (Ha : nth_error (a :: b :: rest) 0 = Some a) by reflexivity.
  assert (Hb : nth_error (a :: b :: rest) 1 = Some b) by reflexivity.
  split; [exact Hgen|]. split; [exact H01|]. split; [exact Ha|]. split; [exact Hb|].
  exact (output_sorted_by_score (only_surname "Day") 12 (a :: b :: rest) 0 1 a b
           Hgen H01 Ha Hb).
Defined.

(** C5. For every Preference and every quantity [generate_suggestions]
    returns one sequence, the same at every call, and the sort is stable: of
    two suggestions whose records have equal scores, the earlier one comes
    from the record declared earlier in the catalog. *)
Theorem ranking_deterministic_and_stable (pref : Preference) (limit : Z)
  (out : list Suggestion) :
  generate_suggestions pref limit = Ok out ->
  (forall out', generate_suggestions pref limit = Ok out' -> out' = out)
  /\ forall (i j : nat) (a b : Suggestion) (ra rb : NameRecord) (xa xb : float),
       (i < j)%nat ->
       nth_error out i = Some a -> nth_error out j = Some b ->
       In ra BASIC_NAMES -> item_name ra = sg_name a ->
       In rb BASIC_NAMES -> item_name rb = sg_name b ->
       score_name pref ra = Ok xa -> score_name pref rb = Ok xb ->
       PrimFloat.eqb xa xb = true ->
       exists ia ib,
         (ia < ib)%nat
         /\ nth_error BASIC_NAMES ia = Some ra
         /\ nth_error BASIC_NAMES ib = Some rb.
Proof.
  intros Hgen. split.
  - intros out' Hgen'. rewrite Hgen in Hgen'. now injection Hgen'.
  - intros i j a b ra rb xa xb Hij Ha Hb Hra Hna Hrb Hnb Hxa Hxb Heq.
    assert (Hp : precedes out a b) by (apply precedes_nth_error; eauto).
    destruct (output_precedes pref limit out a b Hgen Hp)
      as (ranked & [xp rp] & [xq rq] & Hr & Hpq & <- & <-).
    cbn [to_suggestion sg_name] in Hna, Hnb.
    pose proof (ranked_numbers pref ranked Hr) as Hnum.
    destruct (precedes_in _ _ _ Hpq) as [Hinp Hinq].
    apply sort_desc_in in Hinp, Hinq.
    destruct (rank_in pref BASIC_NAMES ranked xp rp Hr Hinp) as (Hcp & _ & Hsp).
    destruct (rank_in pref BASIC_NAMES ranked xq rq Hr Hinq) as (Hcq & _ & Hsq).
    assert (rp = ra) as -> by (apply catalog_name_inj; auto).
    assert (rq = rb) as -> by (apply catalog_name_inj; auto).
    assert (xp = xa) as -> by congruence.
    assert (xq = xb) as -> by congruence.
    rewrite (eqb_fval xa xb (score_name_number pref ra xa Hra Hxa)
               (score_name_number pref rb xb Hrb Hxb)) in Heq.
    apply Z.eqb_eq in Heq.
    destruct (sort_desc_stable fst ranked _ _ Hnum Hpq) as [Hin|Hlt].
    + apply (map_precedes snd) in Hin. cbn [snd] in Hin.
      destruct (rank_ok pref BASIC_NAMES ranked Hr) as [Hel _].
      rewrite Hel in Hin. unfold eligible in Hin.
      apply precedes_filter in Hin. now apply precedes_nth_error.
    + cbn [fst] in Hlt. lia.
Qed.

Lemma ranking_deterministic_and_stable_witness :
  exists out,
    generate_suggestions (only_surname "Day") 12 = Ok out
    /\ (forall out', generate_suggestions (only_surname "Day") 12 = Ok out' ->
                     out' = out)
    /\ forall (i j : nat) (a b : Suggestion) (ra rb : NameRecord) (xa xb : float),
         (i < j)%nat ->
         nth_error out i = Some a -> nth_error out j = Some b ->
         In ra BASIC_NAMES -> item_name ra = sg_name a ->
         In rb BASIC_NAMES -> item_name rb = sg_name b ->
         score_name (only_surname "Day") ra = Ok xa ->
         score_name (only_surname "Day") rb = Ok xb ->
         PrimFloat.eqb xa xb = true ->
         exists ia ib,
           (ia < ib)%nat
           /\ nth_error BASIC_NAMES ia = Some ra
           /\ nth_error BASIC_NAMES ib = Some rb.
Proof.
  assert (Hgen : exists out, generate_suggestions (only_surname "Day") 12 = Ok out)
    by (vm_compute; eauto).
  destruct Hgen as (out & Hgen).
  exists out. split; [exact Hgen|].
  exact (ranking_deterministic_and_stable (only_surname "Day") 12 out Hgen).
Defined.

End OrderClaims.

(* ================================================================== *)
(** * Further properties of the engine *)

(** ** What a score depends on *)

Section ScoreDependsOn.

Import Py PyFacts.
Open Scope string_scope.

(** Two preferences that every step of [score_name] reads alike get the
    same score. *)
Lemma score_name_ext (p q : Preference) (item : NameRecord) :
  (forall s, gender_step p item s = gender_step q item s) ->
  (forall s, culture_step p item s = culture_step q item s) ->
  (forall s, language_step p item s = language_step q item s) ->
  (forall s, belief_step p item s = belief_step q item s) ->
  (forall s, style_step p item s = style_step q item s) ->
  (forall s, prefix_step p item s = prefix_step q item s) ->
  (forall s, length_step p item s = length_step q item s) ->
  (forall s, surname_step p item s = surname_step q item s) ->
  uniqueness_term p (item_popularity item) = uniqueness_term q (item_popularity item) ->
  (forall s, fold_left (sibling_step item) (sibling_names p) s
             = fold_left (sibling_step item) (sibling_names q) s) ->
  score_name p item = score_name q item.
Proof.
  intros Hg Hc Hl Hb Hs Hp Hm Hn Hu Hf. unfold score_name.
  rewrite Hg, Hc, Hl, Hb, Hs, Hp, Hm, Hn.
  destruct (surname_step q item _) as [x|e]; cbn [bind]; [|reflexivity].
  now rewrite Hu, Hf.
Qed.

(** The loop of [generate_suggestions] sees a preference through its scores
    and its two filters. *)
Lemma rank_ext (p q : Preference) (items : list NameRecord) :
  (forall item, score_name p item = score_name q item) ->
  (forall item, excluded p item = excluded q item) ->
  rank p items = rank q items.
Proof.
  intros Hs He. induction items as [|item rest IH]; [reflexivity|].
  cbn [rank]. now rewrite Hs, He, IH.
Qed.

Lemma generate_suggestions_ext (p q : Preference) (limit : Z) :
  (forall item, score_name p item = score_name q item) ->
  (forall item, excluded p item = excluded q item) ->
  generate_suggestions p limit = generate_suggestions q limit.
Proof.
  intros Hs He. unfold generate_suggestions. now rewrite (rank_ext p q _ Hs He).
Qed.

Lemma truthy_idem (o : option string) : truthy (truthy o) = truthy o.
Proof.
  destruct o as [s|]; [|reflexivity]. cbn. destruct (nonempty s) eqn:E; cbn; now rewrite ?E.
Qed.

Lemma truthy_int_idem (o : option Z) : truthy_int (truthy_int o) = truthy_int o.
Proof.
  destruct o as [n|]; [|reflexivity]. cbn. destruct (n =? 0)%Z eqn:E; cbn; now rewrite ?E.
Qed.

Lemma opt_eqb_truthy (o : option string) (s : string) :
  nonempty s = true -> opt_eqb (truthy o) s = opt_eqb o s.
Proof.
  intros Hs. destruct o as [t|]; [|reflexivity]. cbn.
  destruct t as [|c t]; [|reflexivity]. cbn. now destruct s.
Qed.

Lemma siblings_skip_empty (item : NameRecord) (sibs : list string) (s : float) :
  fold_left (sibling_step item) (filter nonempty sibs) s
  = fold_left (sibling_step item) sibs s.
Proof.
  revert s. induction sibs as [|sib sibs IH]; intros s; [reflexivity|].
  cbn [filter fold_left]. destruct (nonempty sib) eqn:E.
  - cbn [fold_left]. apply IH.
  - assert (Hskip : sibling_step item s sib = s) by (unfold sibling_step; now rewrite E).
    rewrite Hskip. apply IH.
Qed.

Lemma score_name_unset_falsy (pref : Preference) (item : NameRecord) :
  score_name (unset_falsy pref) item = score_name pref item.
Proof.
  apply score_name_ext; intros;
    unfold gender_step, culture_step, language_step, belief_step, style_step,
      prefix_step, length_step, surname_step, uniqueness_term;
    cbn [unset_falsy surname cultures languages beliefs sibling_names gender
         style starts_with max_length uniqueness];
    rewrite ?truthy_idem, ?truthy_int_idem, ?opt_eqb_truthy by reflexivity;
    try reflexivity.
  apply siblings_skip_empty.
Qed.

Lemma excluded_unset_falsy (pref : Preference) (item : NameRecord) :
  excluded (unset_falsy pref) item = excluded pref item.
Proof.
  unfold excluded, too_long, wrong_gender. cbn [unset_falsy gender max_length].
  now rewrite truthy_idem, truthy_int_idem.
Qed.

(** X1.  A falsy optional field is an unset one: an empty [gender],
    [style], [starts_with] or [uniqueness], a [max_length] of 0 and an empty
    sibling name change neither a score nor the suggestions. *)
Theorem falsy_fields_are_unset (pref : Preference) :
  (forall item, score_name (unset_falsy pref) item = score_name pref item)
  /\ (forall limit,
        generate_suggestions (unset_falsy pref) limit = generate_suggestions pref limit).
Proof.
  split; [apply score_name_unset_falsy|].
  intros limit. apply generate_suggestions_ext;
    [apply score_name_unset_falsy | apply excluded_unset_falsy].
Qed.

Lemma lower_char_idem (c : ascii) : lower_char (lower_char c) = lower_char c.
Proof. destruct c as [[] [] [] [] [] [] [] []]; reflexivity. Qed.

Lemma lower_idem (s : string) : lower (lower s) = lower s.
Proof. induction s as [|c s IH]; cbn; [reflexivity|]. now rewrite lower_char_idem, IH. Qed.

Lemma any_in_lower (xs : list string) (text : string) :
  any_in (map lower xs) text = any_in xs text.
Proof.
  unfold any_in. induction xs as [|x xs IH]; [reflexivity|].
  cbn [map existsb]. now rewrite lower_idem, IH.
Qed.

Lemma truthy_lower (o : option string) :
  truthy (option_map lower o) = option_map lower (truthy o).
Proof.
  destruct o as [s|]; [|reflexivity]. cbn. rewrite lower_nonempty.
  now destruct (nonempty s).
Qed.

Lemma sibling_step_lower (item : NameRecord) (s : float) (sib : string) :
  sibling_step item s (lower sib) = sibling_step item s sib.
Proof. unfold sibling_step. now rewrite lower_nonempty, lower_idem. Qed.

Lemma siblings_lower (item : NameRecord) (sibs : list string) (s : float) :
  fold_left (sibling_step item) (map lower sibs) s
  = fold_left (sibling_step item) sibs s.
Proof.
  revert s. induction sibs as [|sib sibs IH]; intros s; [reflexivity|].
  cbn [map fold_left]. now rewrite sibling_step_lower, IH.
Qed.

Lemma score_name_lower_text (pref : Preference) (item : NameRecord) :
  score_name (lower_text pref) item = score_name pref item.
Proof.
  apply score_name_ext; intros;
    unfold gender_step, culture_step, language_step, belief_step, style_step,
      prefix_step, length_step, surname_step, uniqueness_term;
    cbn [lower_text surname cultures languages beliefs sibling_names gender
         style starts_with max_length uniqueness];
    rewrite ?truthy_lower, ?any_in_lower, ?lower_nonempty, ?lower_idem;
    try reflexivity.
  - destruct (cultures pref); reflexivity.
  - destruct (languages pref); reflexivity.
  - destruct (beliefs pref); reflexivity.
  - destruct (truthy (style pref)); cbn [option_map]; now rewrite ?lower_idem.
  - destruct (truthy (starts_with pref)); cbn [option_map]; now rewrite ?lower_idem.
  - apply siblings_lower.
Qed.

(** X2.  Scoring does not see the letter case of the surname, of the
    cultures, languages, beliefs and sibling names, nor of [style] and
    [starts_with]: two preferences that agree once these are lower-cased
    get the same scores and the same suggestions. *)
Theorem scoring_ignores_letter_case (p q : Preference) :
  lower_text p = lower_text q ->
  (forall item, score_name p item = score_name q item)
  /\ (forall limit, generate_suggestions p limit = generate_suggestions q limit).
Proof.
  intros H.
  assert (Hs : forall item, score_name p item = score_name q item).
  { intros item. rewrite <- (score_name_lower_text p), <- (score_name_lower_text q).
    now rewrite H. }
  split; [exact Hs|].
  intros limit. apply generate_suggestions_ext; [exact Hs|].
  intros item. unfold excluded, too_long, wrong_gender.
  assert (Hg : gender p = gender q) by exact (f_equal gender H).
  assert (Hm : max_length p = max_length q) by exact (f_equal max_length H).
  now rewrite Hg, Hm.
Qed.

Lemma scoring_ignores_letter_case_witness :
  lower_text (only_surname "SMITH") = lower_text (only_surname "smith")
  /\ (forall item, score_name (only_surname "SMITH") item
                   = score_name (only_surname "smith") item)
  /\ (forall limit, generate_suggestions (only_surname "SMITH") limit
                    = generate_suggestions (only_surname "smith") limit).
Proof.
  split; [reflexivity|].
  exact (scoring_ignores_letter_case (only_surname "SMITH") (only_surname "smith")
           eq_refl).
Defined.

(** X3.  [family_origins] and [parent_names] are never read: whatever they
    hold, every score and every list of suggestions is the same. *)
Theorem family_fields_are_ignored (pref : Preference) (origins parents : list string) :
  (forall item, score_name (with_family pref origins parents) item = score_name pref item)
  /\ (forall limit,
        generate_suggestions (with_family pref origins parents) limit
        = generate_suggestions pref limit).
Proof.
  assert (Hs : forall item,
             score_name (with_family pref origins parents) item = score_name pref item)
    by (intros item; reflexivity).
  split; [exact Hs|].
  intros limit. apply generate_suggestions_ext; [exact Hs | reflexivity].
Qed.

End ScoreDependsOn.

(** ** The shape of the output *)

Section OutputShape.

Import Py PyFacts.
Open Scope string_scope.

Lemma slice_to_map {A B : Type} (f : A -> B) (l : list A) (k : Z) :
  slice_to (map f l) k = map f (slice_to l k).
Proof. unfold slice_to. rewrite length_map. destruct (0 <=? k)%Z; apply firstn_map. Qed.

(** The length of [l[:k]] for any int [k]. *)
Lemma slice_to_length_any {A : Type} (l : list A) (k : Z) :
  Z.of_nat (List.length (slice_to l k))
  = let n := Z.of_nat (List.length l) in
    if (0 <=? k)%Z then Z.min k n else Z.max 0 (n + k).
Proof.
  cbv zeta. unfold slice_to.
  destruct (0 <=? k)%Z eqn:E; rewrite length_firstn.
  - apply Z.leb_le in E. lia.
  - apply Z.leb_gt in E. lia.
Qed.

Lemma slice_to_all {A : Type} (l : list A) (k : Z) :
  (Z.of_nat (List.length l) <= k)%Z -> slice_to l k = l.
Proof.
  intros H. unfold slice_to.
  assert (E : (0 <=? k)%Z = true) by (apply Z.leb_le; lia).
  rewrite E. apply firstn_all2. lia.
Qed.

Lemma slice_to_prefix {A : Type} (l : list A) (k k' : Z) :
  (0 <= k <= k')%Z -> slice_to l k = firstn (Z.to_nat k) (slice_to l k').
Proof.
  intros H. unfold slice_to.
  assert (E : (0 <=? k)%Z = true) by (apply Z.leb_le; lia).
  assert (E' : (0 <=? k')%Z = true) by (apply Z.leb_le; lia).
  rewrite E, E', firstn_firstn. f_equal. lia.
Qed.

Lemma nodup_firstn {A : Type} (n : nat) (l : list A) : NoDup l -> NoDup (firstn n l).
Proof.
  intros H. rewrite <- (firstn_skipn n l) in H. exact (NoDup_app_remove_r _ _ H).
Qed.

Lemma nodup_slice_to {A : Type} (l : list A) (k : Z) : NoDup l -> NoDup (slice_to l k).
Proof. intros H. unfold slice_to. destruct (0 <=? k)%Z; now apply nodup_firstn. Qed.

Lemma filter_keeps_distinct_keys {V K : Type} (key : V -> K) (keep : V -> bool)
  (xs : list V) (Hxs : NoDup (map key xs)) :
  NoDup (map key (filter keep xs)).
Proof.
  induction xs as [|x xs IH]; cbn [map filter] in *; [constructor|].
  apply NoDup_cons_iff in Hxs. destruct Hxs as [Hx Hxs].
  destruct (keep x); cbn [map]; [|exact (IH Hxs)].
  apply NoDup_cons; [|exact (IH Hxs)].
  intros Hc. apply Hx. apply in_map_iff in Hc. destruct Hc as [y [Hy Hf]].
  apply filter_In in Hf. apply in_map_iff. exists y. tauto.
Qed.

(** The ranked records, sorted: the eligible records in another order. *)
Lemma sorted_records (pref : Preference) (items : list NameRecord)
  (ranked : list (float * NameRecord)) :
  rank pref items = Ok ranked ->
  Permutation (map snd (sort_desc fst ranked)) (eligible pref items).
Proof.
  intros H. destruct (rank_ok _ _ _ H) as [Hm _]. rewrite <- Hm.
  apply Permutation_map, sort_desc_perm.
Qed.

(** The names of the output, read off the sorted ranked list. *)
Lemma output_names (pref : Preference) (limit : Z) (out : list Suggestion) :
  generate_suggestions pref limit = Ok out ->
  exists ranked,
    rank pref BASIC_NAMES = Ok ranked
    /\ map sg_name out
       = slice_to (map item_name (map snd (sort_desc fst ranked))) limit.
Proof.
  intros H. destruct (generate_suggestions_ok _ _ _ H) as [ranked [Hr ->]].
  exists ranked. split; [exact Hr|].
  rewrite !slice_to_map, !map_map. apply map_ext. now intros [x item].
Qed.

Lemma generate_suggestions_length_any (pref : Preference) (limit : Z)
  (out : list Suggestion) :
  generate_suggestions pref limit = Ok out ->
  Z.of_nat (List.length out)
  = let n := Z.of_nat (List.length (eligible pref BASIC_NAMES)) in
    if (0 <=? limit)%Z then Z.min limit n else Z.max 0 (n + limit).
Proof.
  intros H. destruct (generate_suggestions_ok _ _ _ H) as [ranked [Hr ->]].
  rewrite length_map, slice_to_length_any, sort_desc_length.
  destruct (rank_ok _ _ _ Hr) as [Hm _].
  now rewrite <- Hm, length_map.
Qed.

(** X4.  The number of suggestions, for any integer [limit]: a limit that
    is not negative caps the eligible records; a negative one drops that
    many of them from the end of the ranking. *)
Theorem output_length_for_any_limit (pref : Preference) (limit : Z) :
  exists out,
    generate_suggestions pref limit = Ok out
    /\ Z.of_nat (List.length out)
       = let n := Z.of_nat (List.length (eligible pref BASIC_NAMES)) in
         if (0 <=? limit)%Z then Z.min limit n else Z.max 0 (n + limit).
Proof.
  destruct (generate_suggestions_total pref limit) as [out H].
  exists out. split; [exact H|]. exact (generate_suggestions_length_any _ _ _ H).
Qed.

(** X5.  Asking for more only appends: for [0 <= k <= k'], the [k]
    suggestions are the first [k] of the [k'] suggestions. *)
Theorem smaller_limit_gives_prefix (pref : Preference) (k k' : Z) :
  (0 <= k <= k')%Z ->
  exists out',
    generate_suggestions pref k' = Ok out'
    /\ generate_suggestions pref k = Ok (firstn (Z.to_nat k) out').
Proof.
  intros Hk. destruct (generate_suggestions_total pref k') as [out' H'].
  exists out'. split; [exact H'|].
  destruct (generate_suggestions_ok _ _ _ H') as [ranked [Hr ->]].
  unfold generate_suggestions. rewrite Hr. cbn [bind].
  now rewrite (slice_to_prefix _ k k' Hk), firstn_map.
Qed.

Lemma smaller_limit_gives_prefix_witness :
  (0 <= 3 <= 12)%Z
  /\ exists out',
       generate_suggestions smith_pref 12 = Ok out'
       /\ generate_suggestions smith_pref 3 = Ok (firstn (Z.to_nat 3) out').
Proof.
  split; [lia|]. apply (smaller_limit_gives_prefix smith_pref 3 12). lia.
Defined.

(** X6.  No name is suggested twice, and a suggestion is a record of the
    seed list that passes both filters, copied field by field, with the
    record's score rounded to three decimals and the one fixed rationale. *)
Theorem suggestions_are_distinct_records (pref : Preference) (limit : Z) :
  exists out,
    generate_suggestions pref limit = Ok out
    /\ NoDup (map sg_name out)
    /\ forall s, In s out ->
         exists item score,
           In item BASIC_NAMES
           /\ excluded pref item = false
           /\ score_name pref item = Ok score
           /\ s = {| sg_name := item_name item;
                     sg_gender := Some (item_gender item);
                     sg_origin := Some (item_origin item);
                     sg_meaning := Some (item_meaning item);
                     sg_themes := item_themes item;
                     sg_score := round3 score;
                     sg_rationale := Some rationale_text |}.
Proof.
  destruct (generate_suggestions_total pref limit) as [out H].
  exists out. split; [exact H|]. split.
  - destruct (output_names _ _ _ H) as [ranked [Hr ->]].
    apply nodup_slice_to.
    apply (Permutation_NoDup
             (Permutation_sym (Permutation_map item_name (sorted_records _ _ _ Hr)))).
    apply filter_keeps_distinct_keys, catalog_names_nodup.
  - intros s Hs.
    destruct (generate_suggestions_from _ _ _ _ H Hs) as [score [item [-> [Hi [He Hsc]]]]].
    exists item, score. repeat split; assumption.
Qed.

(** X7.  A limit that reaches the number of eligible records leaves none
    out: the suggested names are the names of the records that pass the two
    filters, each once. *)
Theorem large_limit_returns_every_eligible_record (pref : Preference) (limit : Z) :
  (Z.of_nat (List.length (eligible pref BASIC_NAMES)) <= limit)%Z ->
  exists out,
    generate_suggestions pref limit = Ok out
    /\ Permutation (map sg_name out) (map item_name (eligible pref BASIC_NAMES)).
Proof.
  intros Hl. destruct (generate_suggestions_total pref limit) as [out H].
  exists out. split; [exact H|].
  destruct (output_names _ _ _ H) as [ranked [Hr ->]].
  pose proof (sorted_records _ _ _ Hr) as Hp.
  rewrite slice_to_all.
  - now apply Permutation_map.
  - rewrite !length_map. rewrite <- (length_map snd), (Permutation_length Hp). exact Hl.
Qed.

Lemma large_limit_returns_every_eligible_record_witness :
  (Z.of_nat (List.length (eligible short_girl_pref BASIC_NAMES)) <= 23)%Z
  /\ exists out,
       generate_suggestions short_girl_pref 23 = Ok out
       /\ Permutation (map sg_name out)
            (map item_name (eligible short_girl_pref BASIC_NAMES)).
Proof.
  assert (Hl : (Z.of_nat (List.length (eligible short_girl_pref BASIC_NAMES)) <= 23)%Z)
    by (vm_compute; discriminate).
  split; [exact Hl|].
  exact (large_limit_returns_every_eligible_record short_girl_pref 23 Hl).
Defined.

Lemma catalog_genders :
  forallb (fun item => existsb (String.eqb (item_gender item)) ["boy"; "girl"; "unisex"])
    BASIC_NAMES = true.
Proof. vm_compute. reflexivity. Qed.

Lemma catalog_gender (item : NameRecord) :
  In item BASIC_NAMES ->
  item_gender item = "boy" \/ item_gender item = "girl" \/ item_gender item = "unisex".
Proof.
  intros H. pose proof catalog_genders as Hall.
  rewrite forallb_forall in Hall. specialize (Hall item H).
  cbn [existsb] in Hall. rewrite !orb_true_iff in Hall.
  destruct Hall as [E|[E|[E|E]]]; try discriminate; apply String.eqb_eq in E; auto.
Qed.

(** X8.  [gender] is compared as it is written: a non-empty [gender] that
    is neither [boy] nor [girl] (a capitalised [Boy], say) leaves only the
    unisex records. *)
Theorem unknown_gender_leaves_unisex (pref : Preference) (limit : Z) (g : string) :
  gender pref = Some g -> g <> "" -> g <> "boy" -> g <> "girl" ->
  exists out,
    generate_suggestions pref limit = Ok out
    /\ forall s, In s out -> sg_gender s = Some "unisex".
Proof.
  intros Hg Hne Hb Hgi. destruct (generate_suggestions_total pref limit) as [out H].
  exists out. split; [exact H|]. intros s Hs.
  destruct (generate_suggestions_from _ _ _ _ H Hs) as [score [item [-> [Hi [He _]]]]].
  cbn [to_suggestion sg_gender]. f_equal.
  unfold excluded in He. apply orb_false_iff in He. destruct He as [_ He].
  unfold wrong_gender in He. rewrite Hg in He. cbn [truthy] in He.
  assert (Hn : nonempty g = true) by (destruct g; [contradiction|reflexivity]).
  rewrite Hn in He. apply negb_false_iff, orb_true_iff in He.
  destruct He as [E|E]; apply String.eqb_eq in E; [|exact E].
  destruct (catalog_gender item Hi) as [F|[F|F]]; congruence.
Qed.

Lemma unknown_gender_leaves_unisex_witness :
  gender capital_boy_pref = Some "Boy" /\ "Boy" <> "" /\ "Boy" <> "boy" /\ "Boy" <> "girl"
  /\ exists out,
       generate_suggestions capital_boy_pref 12 = Ok out
       /\ forall s, In s out -> sg_gender s = Some "unisex".
Proof.
  assert (H1 : "Boy" <> "") by discriminate.
  assert (H2 : "Boy" <> "boy") by discriminate.
  assert (H3 : "Boy" <> "girl") by discriminate.
  split; [reflexivity|]. split; [exact H1|]. split; [exact H2|]. split; [exact H3|].
  exact (unknown_gender_leaves_unisex capital_boy_pref 12 "Boy" eq_refl H1 H2 H3).
Defined.

(** X9.  Every score is a number: [score_name] never yields NaN on a record
    of the seed list, and no suggestion carries a NaN score. *)
Theorem scores_are_never_nan (pref : Preference) (limit : Z) :
  (forall item, In item BASIC_NAMES ->
     exists score, score_name pref item = Ok score /\ not_nan score = true)
  /\ exists out,
       generate_suggestions pref limit = Ok out
       /\ forall s, In s out -> not_nan (sg_score s) = true.
Proof.
  split.
  - intros item Hi.
    destruct (score_name_total pref item
                (record_ok_name _ (catalog_record_ok _ Hi))) as [score Hs].
    exists score. split; [exact Hs|]. exact (score_name_number _ _ _ Hi Hs).
  - destruct (generate_suggestions_total pref limit) as [out H].
    exists out. split; [exact H|]. intros s Hs.
    destruct (generate_suggestions_from _ _ _ _ H Hs) as [score [item [-> [Hi [_ Hsc]]]]].
    cbn [to_suggestion sg_score].
    apply fval_round3. exact (score_name_number _ _ _ Hi Hsc).
Qed.

End OutputShape.

(** ** Sibling names *)

Section Siblings.

Import Py PyFacts.
Open Scope string_scope.
Open Scope float_scope.

Lemma sibling_step_iter (item : NameRecord) (s : float) (sib : string) :
  sibling_step item s sib = Nat.iter (sibling_penalties item sib) penalty s.
Proof.
  unfold sibling_step, sibling_penalties.
  destruct (nonempty sib); [|reflexivity].
  destruct (startswith _ _); destruct (_ && _); reflexivity.
Qed.

Lemma siblings_iter (item : NameRecord) (sibs : list string) (s : float) :
  fold_left (sibling_step item) sibs s
  = Nat.iter (list_sum (map (sibling_penalties item) sibs)) penalty s.
Proof.
  revert s. induction sibs as [|sib sibs IH]; intros s; [reflexivity|].
  cbn [fold_left map]. rewrite IH, sibling_step_iter, <- Nat.iter_add.
  f_equal. unfold list_sum. cbn [fold_right]. lia.
Qed.

Lemma list_sum_perm (l l' : list nat) : Permutation l l' -> list_sum l = list_sum l'.
Proof. unfold list_sum. induction 1; cbn [fold_right]; lia. Qed.

(** [x - c] is not above [x], for a finite [c] that is not negative. *)
Lemma sub_finite_le (x c : float) :
  not_nan x = true -> finite_float c = true -> (0 <= fval c)%Z ->
  PrimFloat.leb (x - c) x = true.
Proof.
  intros Nx Fc Hc. pose proof (sub_not_nan x c Nx Fc) as Nr.
  rewrite (leb_fval _ _ Nr Nx). apply Z.leb_le.
  destruct (finite_float x) eqn:Fx.
  - destruct (SFsub_bounds (Prim2SF x) (Prim2SF c)
                (Prim2SF_valid x) (Prim2SF_valid c) Fx Fc) as [_ Hb].
    cbn zeta in Hb. rewrite <- sub_spec in Hb.
    destruct (Hb _ (srep_fval x Fx)) as [H _]. apply H. unfold fval in *. lia.
  - unfold fval. rewrite sub_spec.
    unfold not_nan, finite_float in Nx, Fx, Fc.
    destruct (Prim2SF x) as [s|s| |s m e]; try discriminate.
    destruct (Prim2SF c) as [sc|sc| |sc mc ec]; try discriminate;
      cbn [SFsub]; apply Z.le_refl.
Qed.

Lemma penalty_le (x : float) :
  not_nan x = true -> not_nan (penalty x) = true /\ PrimFloat.leb (penalty x) x = true.
Proof.
  intros Nx. unfold penalty. split.
  - apply sub_not_nan; [exact Nx | reflexivity].
  - apply sub_finite_le; [exact Nx | reflexivity | vm_compute; discriminate].
Qed.

Lemma penalties_le (n : nat) (x : float) :
  not_nan x = true ->
  not_nan (Nat.iter n penalty x) = true /\ PrimFloat.leb (Nat.iter n penalty x) x = true.
Proof.
  intros Nx. induction n as [|n [IHn IHl]].
  - change (Nat.iter 0 penalty x) with x.
    split; [exact Nx|]. rewrite (leb_fval _ _ Nx Nx). apply Z.leb_le. lia.
  - rewrite Nat.iter_succ. destruct (penalty_le _ IHn) as [Hn Hl]. split; [exact Hn|].
    rewrite (leb_fval _ _ Hn Nx). rewrite (leb_fval _ _ Hn IHn) in Hl.
    rewrite (leb_fval _ _ IHn Nx) in IHl.
    apply Z.leb_le in Hl, IHl. apply Z.leb_le. lia.
Qed.

(** The score before the sibling rules. *)
Lemma score_name_siblings (pref : Preference) (item : NameRecord) (sibs : list string) :
  score_name (with_siblings pref sibs) item
  = base <- score_name (with_siblings pref []) item ;;
    Ok (fold_left (sibling_step item) sibs base).
Proof.
  unfold score_name. cbn [with_siblings sibling_names].
  change (surname_step (with_siblings pref sibs)) with (surname_step pref).
  change (surname_step (with_siblings pref [])) with (surname_step pref).
  destruct (surname_step pref item _) as [x|e]; reflexivity.
Qed.

Lemma with_siblings_same (pref : Preference) (item : NameRecord) :
  score_name (with_siblings pref (sibling_names pref)) item = score_name pref item.
Proof. reflexivity. Qed.

(** X10.  The order of the sibling names does not matter: a score depends
    on them only through the number of sibling rules that fire. *)
Theorem sibling_order_is_irrelevant (pref : Preference) (item : NameRecord)
  (sibs : list string) :
  Permutation (sibling_names pref) sibs ->
  score_name (with_siblings pref sibs) item = score_name pref item.
Proof.
  intros Hp. rewrite <- (with_siblings_same pref item).
  rewrite (score_name_siblings pref item sibs),
    (score_name_siblings pref item (sibling_names pref)).
  destruct (score_name (with_siblings pref []) item) as [base|e]; cbn [bind]; [|reflexivity].
  rewrite !siblings_iter.
  now rewrite (list_sum_perm _ _ (Permutation_map (sibling_penalties item) Hp)).
Qed.

Lemma sibling_order_is_irrelevant_witness :
  Permutation (sibling_names siblings_pref) ["Nora"; "Jack"]
  /\ score_name (with_siblings siblings_pref ["Nora"; "Jack"]) james
     = score_name siblings_pref james.
Proof.
  assert (Hp : Permutation (sibling_names siblings_pref) ["Nora"; "Jack"])
    by apply perm_swap.
  split; [exact Hp|].
  exact (sibling_order_is_irrelevant siblings_pref james ["Nora"; "Jack"] Hp).
Defined.

(** X11.  One more sibling name never raises a score: on every record of
    the seed list the score with the extra name is at most the score
    without it. *)
Theorem extra_sibling_never_raises_score (pref : Preference) (item : NameRecord)
  (sib : string) :
  In item BASIC_NAMES ->
  exists x y,
    score_name pref item = Ok x
    /\ score_name (with_siblings pref (sib :: sibling_names pref)) item = Ok y
    /\ PrimFloat.leb y x = true.
Proof.
  intros Hi.
  destruct (score_name_total pref item (record_ok_name _ (catalog_record_ok _ Hi)))
    as [x Hx].
  pose proof (score_name_number _ _ _ Hi Hx) as Nx.
  exists x, (Nat.iter (sibling_penalties item sib) penalty x).
  split; [exact Hx|]. split; [|now apply penalties_le].
  rewrite <- (with_siblings_same pref item),
    (score_name_siblings pref item (sibling_names pref)) in Hx.
  rewrite (score_name_siblings pref item (sib :: sibling_names pref)).
  destruct (score_name (with_siblings pref []) item) as [base|e]; cbn [bind] in *;
    [|discriminate].
  injection Hx as <-. cbn [fold_left]. f_equal.
  rewrite !siblings_iter, sibling_step_iter, <- !Nat.iter_add.
  f_equal. lia.
Qed.

Lemma extra_sibling_never_raises_score_witness :
  In james BASIC_NAMES
  /\ exists x y,
       score_name siblings_pref james = Ok x
       /\ score_name (with_siblings siblings_pref ("Amos" :: sibling_names siblings_pref))
            james = Ok y
       /\ PrimFloat.leb y x = true.
Proof.
  assert (Hi : In james BASIC_NAMES) by (left; reflexivity).
  split; [exact Hi|].
  exact (extra_sibling_never_raises_score siblings_pref james "Amos" Hi).
Defined.

End Siblings.

(** ** Empty texts in the lists *)

Section EmptyTexts.

Import Py PyFacts.
Open Scope string_scope.
Open Scope float_scope.

Lemma contains_empty (s : string) : contains s "" = true.
Proof. destruct s; reflexivity. Qed.

Lemma any_in_empty (xs : list string) (text : string) :
  In "" xs -> any_in xs text = true.
Proof.
  intros H. unfold any_in. apply existsb_exists. exists "". split; [exact H|].
  apply contains_empty.
Qed.

(** X12.  An empty text in [cultures], [languages] or [beliefs] matches
    every record of the seed list: the record gets the +1.5, the +0.5 or
    the +1.0 whatever its origin and themes are. *)
Theorem empty_text_matches_every_record (pref : Preference) (item : NameRecord)
  (score : float) :
  In item BASIC_NAMES ->
  (In "" (cultures pref) -> culture_step pref item score = score + 1.5)
  /\ (In "" (languages pref) -> language_step pref item score = score + 0.5)
  /\ (In "" (beliefs pref) -> belief_step pref item score = score + 1).
Proof.
  intros Hi. pose proof (record_ok_origin _ (catalog_record_ok _ Hi)) as Ho.
  repeat split; intros H.
  - unfold culture_step. rewrite Ho, (any_in_empty _ _ H).
    destruct (cultures pref); [contradiction|reflexivity].
  - unfold language_step. rewrite (any_in_empty _ _ H).
    destruct (languages pref); [contradiction|reflexivity].
  - unfold belief_step. rewrite (any_in_empty _ _ H).
    destruct (beliefs pref); [contradiction|reflexivity].
Qed.

Lemma empty_text_matches_every_record_witness :
  In james BASIC_NAMES
  /\ culture_step blank_lists_pref james 0 = 0 + 1.5
  /\ language_step blank_lists_pref james 0 = 0 + 0.5
  /\ belief_step blank_lists_pref james 0 = 0 + 1.
Proof.
  assert (Hi : In james BASIC_NAMES) by (left; reflexivity).
  split; [exact Hi|].
  destruct (empty_text_matches_every_record blank_lists_pref james 0 Hi)
    as [Hc [Hl Hb]].
  assert (He : In "" [""]) by (left; reflexivity).
  split; [exact (Hc He)|]. split; [exact (Hl He) | exact (Hb He)].
Defined.

End EmptyTexts.

(** ** The endpoint *)

Section Endpoint.

Import Py PyFacts.
Open Scope string_scope.

Variable World : Type.
Variable sink : string -> Generation -> World -> result string * World.

(** X13.  The endpoint logs once, and logs what it returns: the store it
    leaves is the one left by a single [create_document] call on the
    collection [generation], with the request's preference, the returned
    suggestions and no notes. *)
Theorem generation_is_logged_once (req : GenerateRequest) (w : World) :
  exists out,
    fst (api_generate sink req w) = Ok {| suggestions := out |}
    /\ snd (api_generate sink req w)
       = snd (sink "generation"
                {| gen_preference := req_preference req;
                   gen_suggestions := out;
                   gen_notes := None |} w).
Proof.
  destruct (generate_suggestions_total (req_preference req) (quantity_or_12 req))
    as [out H].
  exists out. unfold api_generate. rewrite H. cbn [fst snd]. split; [reflexivity|].
  unfold try_pass. destruct (sink _ _ w) as [[id|e] w']; reflexivity.
Qed.

(** X14.  A quantity other than 0 is the limit as it stands, with no lower
    or upper bound: a negative quantity is not refused, it drops that many
    records from the end of the ranking. *)
Theorem quantity_is_not_clamped (req : GenerateRequest) (w : World) (q : Z) :
  quantity req = Some q -> q <> 0%Z ->
  exists out,
    generate_suggestions (req_preference req) q = Ok out
    /\ fst (api_generate sink req w) = Ok {| suggestions := out |}
    /\ Z.of_nat (List.length out)
       = let n := Z.of_nat (List.length (eligible (req_preference req) BASIC_NAMES)) in
         if (0 <=? q)%Z then Z.min q n else Z.max 0 (n + q).
Proof.
  intros Hq Hz.
  destruct (generate_suggestions_total (req_preference req) q) as [out H].
  exists out. split; [exact H|]. split.
  - unfold api_generate, quantity_or_12. rewrite Hq. cbn [truthy_int].
    apply Z.eqb_neq in Hz. rewrite Hz, H. reflexivity.
  - exact (generate_suggestions_length_any _ _ _ H).
Qed.

End Endpoint.

Lemma quantity_is_not_clamped_witness :
  let req := {| req_preference := only_surname "Smith"; quantity := Some (-3)%Z |} in
  quantity req = Some (-3)%Z /\ (-3 <> 0)%Z
  /\ exists out,
       generate_suggestions (req_preference req) (-3) = Ok out
       /\ fst (api_generate list_sink req []) = Ok {| suggestions := out |}
       /\ Z.of_nat (List.length out)
          = let n := Z.of_nat (List.length (eligible (req_preference req) BASIC_NAMES)) in
            if (0 <=? -3)%Z then Z.min (-3) n else Z.max 0 (n + -3).
Proof.
  cbv zeta. split; [reflexivity|].
  assert (Hz : (-3 <> 0)%Z) by discriminate.
  split; [exact Hz|].
  exact (quantity_is_not_clamped _ list_sink
           {| req_preference := only_surname "Smith"; quantity := Some (-3)%Z |}
           [] (-3)%Z eq_refl Hz).
Defined.

(* ================================================================== *)
(** * The history endpoint *)

Section HistoryFacts.

Open Scope string_scope.

Lemma dict_get_set (k k' : string) (v : value) (d : document) :
  dict_get k' (dict_set k v d) = if String.eqb k k' then Some v else dict_get k' d.
Proof.
  induction d as [|[k0 v0] d IH]; cbn [dict_set dict_get].
  - reflexivity.
  - destruct (String.eqb k0 k) eqn:E0; cbn [dict_get].
    + apply String.eqb_eq in E0. subst k0. now destruct (String.eqb k k').
    + destruct (String.eqb k0 k') eqn:E1; [|exact IH].
      apply String.eqb_eq in E1. subst k0.
      rewrite String.eqb_sym in E0. now rewrite E0.
Qed.

Lemma dict_set_keys (k : string) (v v0 : value) (d : document) :
  dict_get k d = Some v0 -> map fst (dict_set k v d) = map fst d.
Proof.
  induction d as [|[k0 v1] d IH]; cbn [dict_set dict_get map fst]; [discriminate|].
  destruct (String.eqb k0 k); cbn [map fst]; [reflexivity|].
  intros H. now rewrite IH.
Qed.

Lemma dict_set_same (k : string) (v : value) (d : document) :
  dict_get k d = Some v -> dict_set k v d = d.
Proof.
  induction d as [|[k0 v1] d IH]; cbn [dict_set dict_get]; [discriminate|].
  destruct (String.eqb k0 k); intros H; [now injection H as -> | now rewrite IH].
Qed.

Lemma stringify_keys (k : string) (d : document) :
  map fst (stringify k d) = map fst d.
Proof.
  unfold stringify. destruct (dict_get k d) as [v|] eqn:E; [|reflexivity].
  exact (dict_set_keys _ _ _ _ E).
Qed.

Lemma stringify_get (k k' : string) (d : document) :
  dict_get k' (stringify k d)
  = if String.eqb k k' then option_map (fun v => VStr (py_str v)) (dict_get k' d)
    else dict_get k' d.
Proof.
  unfold stringify. destruct (dict_get k d) as [v|] eqn:E.
  - rewrite dict_get_set. destruct (String.eqb k k') eqn:Ek; [|reflexivity].
    apply String.eqb_eq in Ek. subst k'. now rewrite E.
  - destruct (String.eqb k k') eqn:Ek; [|reflexivity].
    apply String.eqb_eq in Ek. subst k'. now rewrite E.
Qed.

Lemma stringify_text_at (k k' : string) (d : document) :
  k' = k \/ text_at k d -> text_at k (stringify k' d).
Proof.
  intros H v. rewrite stringify_get.
  destruct (String.eqb k' k) eqn:E.
  - destruct (dict_get k d) as [v0|]; cbn [option_map]; [|discriminate].
    intros Hv. injection Hv as <-. now exists (py_str v0).
  - destruct H as [->|H]; [now rewrite String.eqb_refl in E | apply H].
Qed.

Lemma stringify_fixed (k : string) (d : document) :
  text_at k d -> stringify k d = d.
Proof.
  intros H. unfold stringify. destruct (dict_get k d) as [v|] eqn:E; [|reflexivity].
  destruct (H v E) as [s ->]. exact (dict_set_same _ _ _ E).
Qed.

Lemma coerce_text_at (k : string) (d : document) :
  coerced_key k = true -> text_at k (coerce d).
Proof.
  unfold coerced_key, coerce. rewrite !orb_true_iff, !String.eqb_eq.
  intros [[->| ->]| ->]; cbv zeta.
  - apply stringify_text_at. right. apply stringify_text_at. right.
    apply stringify_text_at. now left.
  - apply stringify_text_at. right. apply stringify_text_at. now left.
  - apply stringify_text_at. now left.
Qed.

Lemma coerce_keys (d : document) : map fst (coerce d) = map fst d.
Proof. unfold coerce. cbv zeta. now rewrite !stringify_keys. Qed.

(** X15.  [coerce] changes nothing but the values of [_id], [created_at]
    and [updated_at]: the keys and their order are kept (none is added when
    absent), those three values become their [str], every other value is
    left as it is. *)
Theorem coerce_touches_three_values (d : document) :
  map fst (coerce d) = map fst d
  /\ forall k,
       dict_get k (coerce d)
       = if coerced_key k
         then option_map (fun v => VStr (py_str v)) (dict_get k d)
         else dict_get k d.
Proof.
  split; [apply coerce_keys|].
  intros k. unfold coerce, coerced_key. cbv zeta. rewrite !stringify_get.
  rewrite (String.eqb_sym k "_id"), (String.eqb_sym k "created_at"),
    (String.eqb_sym k "updated_at").
  destruct (String.eqb_spec "_id" k) as [<-|H1]; [reflexivity|].
  destruct (String.eqb_spec "created_at" k) as [<-|H2]; [reflexivity|].
  destruct (String.eqb_spec "updated_at" k) as [<-|H3]; reflexivity.
Qed.

(** X16.  [coerce] is idempotent: a document that went through it is left
    as it is by a second pass. *)
Theorem coerce_is_idempotent (d : document) : coerce (coerce d) = coerce d.
Proof.
  unfold coerce at 1. cbv zeta.
  rewrite (stringify_fixed "_id") by now apply coerce_text_at.
  rewrite (stringify_fixed "created_at") by now apply coerce_text_at.
  now rewrite (stringify_fixed "updated_at") by now apply coerce_text_at.
Qed.

Variable World : Type.
Variable store : string -> document -> Z -> World -> result (list document) * World.

(** X17.  The history has one item for each document that the store gives
    for the collection [generation], in the store's order, with the keys of
    that document and texts under [_id], [created_at] and [updated_at]. *)
Theorem history_lists_every_document (limit : Z) (w : World) (docs : list document) :
  fst (store "generation" [] limit w) = Ok docs ->
  exists its,
    fst (api_history store limit w) = Respond {| items := its |}
    /\ List.length its = List.length docs
    /\ Forall2 (fun doc item =>
                  map fst item = map fst doc
                  /\ forall k, coerced_key k = true -> text_at k item) docs its.
Proof.
  intros H. exists (map coerce docs). unfold api_history.
  destruct (store "generation" [] limit w) as [[docs'|e] w']; cbn [fst] in *;
    [|discriminate].
  injection H as ->. split; [reflexivity|]. split; [apply length_map|].
  induction docs as [|doc docs IH]; cbn [map]; constructor; [|exact IH].
  split; [apply coerce_keys|]. intros k Hk. now apply coerce_text_at.
Qed.

(** X18.  A failure of the store never escapes as it is: the only error
    of [api_history] is an [HTTPException] of status 500 whose detail is the
    text of the exception that the store raised. *)
Theorem history_error_is_500 (limit : Z) (w : World) (status : Z) (detail : string) :
  fst (api_history store limit w) = HTTPException status detail ->
  status = 500%Z
  /\ exists e, fst (store "generation" [] limit w) = Raise e /\ detail = exn_text e.
Proof.
  unfold api_history.
  destruct (store "generation" [] limit w) as [[docs|e] w']; cbn [fst];
    intros H; [discriminate|].
  injection H as <- <-. split; [reflexivity|]. now exists e.
Qed.

End HistoryFacts.

Lemma history_lists_every_document_witness :
  fst (list_store [logged_document] "generation" [] 10 tt) = Ok [logged_document]
  /\ exists its,
       fst (api_history (list_store [logged_document]) 10 tt) = Respond {| items := its |}
       /\ List.length its = List.length [logged_document]
       /\ Forall2 (fun doc item =>
                     map fst item = map fst doc
                     /\ forall k, coerced_key k = true -> text_at k item)
            [logged_document] its.
Proof.
  split; [reflexivity|].
  exact (history_lists_every_document unit (list_store [logged_document]) 10 tt
           [logged_document] eq_refl).
Defined.

Lemma history_error_is_500_witness :
  fst (api_history failing_store 10 tt) = HTTPException 500 "store unavailable"
  /\ 500%Z = 500%Z
  /\ exists e, fst (failing_store "generation" [] 10 tt) = Raise e
               /\ "store unavailable"%string = exn_text e.
Proof.
  split; [reflexivity|].
  exact (history_error_is_500 unit failing_store 10 tt 500 "store unavailable" eq_refl).
Defined.

(* ================================================================== *)
(** * The health check *)

Section HealthCheckFacts.

Open Scope string_scope.
Import Py PyFacts.

(** X19.  [database_url] and [database_name] tell only whether the
    environment variables DATABASE_URL and DATABASE_NAME hold a non-empty
    text: what the handle gave for them is overwritten, and [backend] is
    always the same text. *)
Theorem health_check_reads_environment (db : option Database)
  (getenv : string -> option string) :
  let r := test_database db getenv in
  database_url r
  = Some match truthy (getenv "DATABASE_URL") with
         | Some _ => "✅ Set" | None => "❌ Not Set" end
  /\ database_name r
     = Some match truthy (getenv "DATABASE_NAME") with
            | Some _ => "✅ Set" | None => "❌ Not Set" end
  /\ backend r = "✅ Running".
Proof.
  cbv zeta. unfold test_database.
  destruct db as [[[| n | e] [names | e']]|]; cbn; repeat split; reflexivity.
Qed.

(** X20.  Whatever the handle does, the health check answers, with at most
    ten collections; it lists collections only when it reports a working
    connection, it reports "Connected" exactly when there is a handle whose
    name can be read, and it never reports the text it starts from. *)
Theorem health_check_invariants (db : option Database)
  (getenv : string -> option string) :
  let r := test_database db getenv in
  (List.length (collections r) <= 10)%nat
  /\ (collections r <> [] ->
      database r = "✅ Connected & Working" /\ connection_status r = "Connected")
  /\ (connection_status r = "Connected" <->
      exists handle, db = Some handle /\ forall e, db_name handle <> Raising e)
  /\ database r <> "❌ Not Available".
Proof.
  cbv zeta. unfold test_database.
  destruct db as [[[| n | e] [names | e']]|];
    cbn [db_name list_collection_names set_database set_database_url
         set_database_name set_connection_status set_collections
         backend database database_url database_name connection_status collections].
  all: repeat split; try (intros; congruence); try (cbn; lia).
  all: try (rewrite slice_to_length by lia; lia).
  all: try (intros _; eexists; split; [reflexivity|]; cbn; intros; discriminate).
  all: try (intros [handle [Hdb Hn]]; try discriminate; injection Hdb as <-;
            cbn in Hn; exfalso; eapply Hn; reflexivity).
  all: try (cbn; discriminate).
Qed.

End HealthCheckFacts.

(* ================================================================== *)
(** * Failure of a score, and the filters seen by the score *)

Section FailureAndFilters.

Import Py PyFacts.
Open Scope string_scope.
Open Scope float_scope.

Lemma nonempty_iff (s : string) : nonempty s = true <-> s <> "".
Proof. destruct s; cbn; split; intros H; congruence. Qed.

Lemma score_name_no_surname (pref : Preference) (item : NameRecord) :
  surname pref = "" -> exists score, score_name pref item = Ok score.
Proof.
  intros H. unfold score_name, surname_step. rewrite H. cbn [nonempty bind].
  eexists. reflexivity.
Qed.

(** X21.  [score_name] fails in one case only: on a record whose name is
    empty, for a preference whose surname is not, it raises IndexError (it
    reads the first letter of the name); in every other case it returns a
    score. *)
Theorem score_name_fails_only_on_empty_name (pref : Preference) (item : NameRecord) :
  (item_name item = "" /\ surname pref <> "" -> score_name pref item = Raise IndexError)
  /\ (item_name item <> "" \/ surname pref = "" ->
      exists score, score_name pref item = Ok score).
Proof.
  split.
  - intros [Hn Hs]. apply score_name_empty_name; [exact Hn | now apply nonempty_iff].
  - intros [Hn|Hs].
    + apply score_name_total. now apply nonempty_iff.
    + now apply score_name_no_surname.
Qed.

(** X22.  What the two filters leave, the score rewards or penalises in a
    fixed way: a record that passes a length filter always gets the +0.4,
    and a record that passes a gender filter gets the +2 when it has the
    gender asked for and is otherwise a unisex record, which gets the
    -0.5. *)
Theorem survivors_length_and_gender_steps (pref : Preference) (item : NameRecord)
  (score : float) :
  excluded pref item = false ->
  (forall L, truthy_int (max_length pref) = Some L ->
             length_step pref item score = score + 0.4)
  /\ (forall g, truthy (gender pref) = Some g ->
        (item_gender item = g /\ gender_step pref item score = score + 2)
        \/ (item_gender item <> g /\ item_gender item = "unisex"
            /\ gender_step pref item score = score - 0.5)).
Proof.
  unfold excluded, too_long, wrong_gender. intros H.
  apply orb_false_iff in H. destruct H as [Hl Hg]. split.
  - intros L HL. unfold length_step. rewrite HL in *.
    apply Z.ltb_ge in Hl. apply Z.leb_le in Hl. now rewrite Hl.
  - intros g Hgp. unfold gender_step. rewrite Hgp in *.
    apply negb_false_iff in Hg.
    destruct (String.eqb_spec (item_gender item) g) as [E|E].
    + left. split; [exact E|]. reflexivity.
    + right. cbn [orb] in Hg. apply String.eqb_eq in Hg.
      split; [exact E|]. split; [exact Hg|].
      rewrite Hg. rewrite Hg in E.
      destruct (String.eqb_spec g "unisex") as [F|F]; [now subst g|reflexivity].
Qed.

Lemma survivors_length_and_gender_steps_witness :
  excluded short_girl_pref wei = false
  /\ (forall L, truthy_int (max_length short_girl_pref) = Some L ->
                length_step short_girl_pref wei 0 = 0 + 0.4)
  /\ (forall g, truthy (gender short_girl_pref) = Some g ->
        (item_gender wei = g /\ gender_step short_girl_pref wei 0 = 0 + 2)
        \/ (item_gender wei <> g /\ item_gender wei = "unisex"
            /\ gender_step short_girl_pref wei 0 = 0 - 0.5)).
Proof.
  split; [reflexivity|].
  exact (survivors_length_and_gender_steps short_girl_pref wei 0 eq_refl).
Defined.

End FailureAndFilters.
